(** * chops-net-ip: start/stop guard of net entities, output queue
      accounting of I/O handlers, and the wait queue.

    The development embeds four pieces of the library:

    - [NetEntityBase]: the class template [net_entity_base<IOH>]
      (atomic [m_started] flag plus the stored shutdown callback);
    - [IoBase]: the [io_base<IOH>] / [output_queue<E>] pair exercised by
      the [io_base_test] scenario;
    - [WaitQueue]: the class template [wait_queue<T, Container>], with
      the readers that wait on its condition variable;
    - [NetEntityMock]: the mock entity of the test utilities.

    Every method is a pure function from the object state to a result and
    a new object state. Methods that run under a mutex, or that consist of
    one atomic operation, are single transitions. *)

From Stdlib Require Import List Bool Arith ZArith Lia.
From Stdlib.Strings Require Import Byte.
Import ListNotations.

Set Implicit Arguments.

(** ** std::atomic_bool *)

Module Atomic.

(** [obj.compare_exchange_strong(expected, desired)]: when the object
    holds [expected] it is replaced by [desired] and the call yields
    [true]; otherwise [expected] is overwritten with the value found and
    the call yields [false]. The result is
    (return value, new object value, new value of [expected]). *)
Definition compare_exchange_strong (obj expected desired : bool)
  : bool * bool * bool :=
  if Bool.eqb obj expected
  then (true, desired, expected)
  else (false, obj, obj).

End Atomic.

(** ** net_entity_base *)

Module NetEntityBase.

Section Entity.

(** [std::shared_ptr<IOH>], [std::error_code], and the callable type kept
    inside the [std::function]. *)
Variables IOH_ptr error_code F : Type.

(** What a caller hands to [start]: a callable ([Some f]), or something
    a [std::function] stays empty for ([None]: a null function pointer,
    an empty [std::function]). Assigning it to [m_shutdown_change_cb]
    stores exactly this. *)
Definition callable_arg : Type := option F.

(** The data members. A [std::function] is either empty or holds a
    callable. *)
Record net_entity_base : Type := mk_entity {
  m_started : bool;
  m_shutdown_change_cb : option F
}.

(** One invocation of a stored callable, with its three arguments
    ([io_interface<IOH>(p)], [err], [sz]). *)
Record invocation : Type := mk_invocation {
  inv_callee : F;
  inv_handler : IOH_ptr;
  inv_err : error_code;
  inv_size : N
}.

(** What a method call produces: its return value, the entity
    afterwards, and the callback invocations it performed, in order. *)
Record outcome (A : Type) : Type := mk_outcome {
  ret : A;
  entity : net_entity_base;
  invoked : list invocation
}.

(** Constructor: [m_started(false), m_shutdown_change_cb()]. *)
Definition init : net_entity_base :=
  {| m_started := false; m_shutdown_change_cb := None |}.

Definition is_started (e : net_entity_base) : bool := m_started e.

Definition start (shutdown_func : callable_arg) (e : net_entity_base)
  : outcome bool :=
  let expected := false in
  let '(won, started', _) :=
    Atomic.compare_exchange_strong (m_started e) expected true in
  if won
  then {| ret := true;
          entity := {| m_started := started';
                       m_shutdown_change_cb := shutdown_func |};
          invoked := [] |}
  else {| ret := false;
          entity := {| m_started := started';
                       m_shutdown_change_cb := m_shutdown_change_cb e |};
          invoked := [] |}.

Definition stop (e : net_entity_base) : outcome bool :=
  let expected := true in
  let '(won, started', _) :=
    Atomic.compare_exchange_strong (m_started e) expected false in
  {| ret := won;
     entity := {| m_started := started';
                  m_shutdown_change_cb := m_shutdown_change_cb e |};
     invoked := [] |}.

(** Calling an empty [std::function] throws [std::bad_function_call]:
    the return value is [None] then, and nothing is invoked. *)
Definition call_shutdown_change_cb (p : IOH_ptr) (err : error_code) (sz : N)
    (e : net_entity_base) : outcome (option unit) :=
  match m_shutdown_change_cb e with
  | Some f => {| ret := Some tt; entity := e;
                 invoked := [mk_invocation f p err sz] |}
  | None => {| ret := None; entity := e; invoked := [] |}
  end.

(** *** Sequences of calls on one entity *)

Inductive call : Type :=
| CStart (f : callable_arg)
| CStop
| CShutdown (p : IOH_ptr) (err : error_code) (sz : N).

(** The boolean a call returns ([call_shutdown_change_cb] is [void]; its
    slot records whether it returned normally). *)
Definition run_call (c : call) (e : net_entity_base) : outcome bool :=
  match c with
  | CStart f => start f e
  | CStop => stop e
  | CShutdown p err sz =>
      let o := call_shutdown_change_cb p err sz e in
      {| ret := match ret o with Some _ => true | None => false end;
         entity := entity o; invoked := invoked o |}
  end.

(** Runs the calls one after the other; yields each call with its return
    value, the final entity and all invocations made. *)
Fixpoint run_calls (cs : list call) (e : net_entity_base)
  : list (call * bool) * net_entity_base * list invocation :=
  match cs with
  | [] => ([], e, [])
  | c :: cs' =>
      let o := run_call c e in
      let '(log, e', ivs) := run_calls cs' (entity o) in
      ((c, ret o) :: log, e', invoked o ++ ivs)
  end.

Definition is_start (c : call) : bool :=
  match c with CStart _ => true | _ => false end.

Definition is_stop (c : call) : bool :=
  match c with CStop => true | _ => false end.

(** Number of [start] calls of a log that returned [true]. *)
Definition successful_starts (log : list (call * bool)) : nat :=
  length (filter (fun cr => is_start (fst cr) && snd cr) log).

(** *** Several threads inside [start] at once

    [start] is two steps: the compare-and-set on [m_started] (one atomic
    operation) and, for the winner only, the assignment to
    [m_shutdown_change_cb]. A thread is at one of these two steps or has
    returned. *)

Inductive start_pc : Type :=
| AtCas (f : callable_arg)
| AtStore (f : callable_arg)
| Returned (f : callable_arg) (r : bool).

Definition thread_step (e : net_entity_base) (t : start_pc)
  : net_entity_base * start_pc :=
  match t with
  | AtCas f =>
      let '(won, started', _) :=
        Atomic.compare_exchange_strong (m_started e) false true in
      ({| m_started := started';
          m_shutdown_change_cb := m_shutdown_change_cb e |},
       if won then AtStore f else Returned f false)
  | AtStore f =>
      ({| m_started := m_started e; m_shutdown_change_cb := f |},
       Returned f true)
  | Returned f r => (e, Returned f r)
  end.

Fixpoint set_nth (i : nat) (t : start_pc) (ts : list start_pc)
  : list start_pc :=
  match ts, i with
  | [], _ => []
  | _ :: ts', O => t :: ts'
  | t0 :: ts', S i' => t0 :: set_nth i' t ts'
  end.

(** Thread [i] takes its next step (nothing happens when there is no
    thread [i]). *)
Definition sched_step (i : nat) (m : net_entity_base * list start_pc)
  : net_entity_base * list start_pc :=
  let '(e, ts) := m in
  match nth_error ts i with
  | Some t => let '(e', t') := thread_step e t in (e', set_nth i t' ts)
  | None => m
  end.

(** A schedule names the thread that moves at each step. *)
Fixpoint run_schedule (sched : list nat) (m : net_entity_base * list start_pc)
  : net_entity_base * list start_pc :=
  match sched with
  | [] => m
  | i :: sched' => run_schedule sched' (sched_step i m)
  end.

(** A thread whose compare-and-set succeeded. *)
Definition is_winner (t : start_pc) : bool :=
  match t with
  | AtCas _ => false
  | AtStore _ => true
  | Returned _ r => r
  end.

Definition winners (ts : list start_pc) : nat :=
  length (filter is_winner ts).

(** No [stop] among the calls. *)
Definition no_stop (cs : list call) : bool :=
  forallb (fun c => negb (is_stop c)) cs.

Definition weight (t : start_pc) : nat := if is_winner t then 1 else 0.

(** What holds of the racing threads at every moment: at most one has
    won the compare-and-set, none has while the flag is still false, and
    a thread that returned [true] finds its own callable stored. *)
Definition race_inv (m : net_entity_base * list start_pc) : Prop :=
  winners (snd m) <= 1
  /\ (m_started (fst m) = false -> winners (snd m) = 0)
  /\ (forall g, In (Returned g true) (snd m) ->
                m_shutdown_change_cb (fst m) = g).

(** Racing on an entity that is started already: the entity never
    changes and nobody wins. *)
Definition lost_inv (e0 : net_entity_base)
    (m : net_entity_base * list start_pc) : Prop :=
  fst m = e0 /\ winners (snd m) = 0.

(** No [start] among the calls. *)
Definition no_start (cs : list call) : bool :=
  forallb (fun c => negb (is_start c)) cs.

(** Number of [stop] calls of a log that returned [true]. *)
Definition successful_stops (log : list (call * bool)) : nat :=
  length (filter (fun cr => is_stop (fst cr) && snd cr) log).

(** The callable handed to the last [start] of a log that returned
    [true]; [acc] when no [start] of the log did. *)
Fixpoint last_winner (log : list (call * bool)) (acc : option F)
  : option F :=
  match log with
  | [] => acc
  | (CStart f, true) :: log' => last_winner log' f
  | _ :: log' => last_winner log' acc
  end.

(** Number of [call_shutdown_change_cb] calls of a log that returned
    normally. *)
Definition completed_shutdown_calls (log : list (call * bool)) : nat :=
  length (filter (fun cr => negb (is_start (fst cr))
                            && negb (is_stop (fst cr)) && snd cr) log).

(** Every [start] among the calls is handed a callable, none an empty
    one. *)
Definition nonempty_args (cs : list call) : bool :=
  forallb (fun c => match c with CStart None => false | _ => true end) cs.

Definition is_returned (t : start_pc) : bool :=
  match t with Returned _ _ => true | _ => false end.

Definition all_returned (ts : list start_pc) : bool :=
  forallb is_returned ts.

(** How far a thread is inside [start]. *)
Definition rank (t : start_pc) : nat :=
  match t with
  | AtCas _ => 0
  | AtStore _ => 1
  | Returned _ _ => 2
  end.

Definition thread_rank (ts : list start_pc) (i : nat) : nat :=
  match nth_error ts i with
  | Some t => rank t
  | None => 2
  end.

(** The schedule that lets thread 0 run [start] to its end, then thread
    1, and so on. *)
Definition serial_schedule (n : nat) : list nat :=
  flat_map (fun i => [i; i]) (seq 0 n).

(** The threads once each has returned the value its [start] gave. *)
Definition returned_threads (fs : list callable_arg) (rets : list bool)
  : list start_pc :=
  map (fun fr => Returned (fst fr) (snd fr)) (combine fs rets).

End Entity.

End NetEntityBase.

(** ** output_queue and io_base

    The headers [net_ip/detail/output_queue.hpp] and
    [net_ip/detail/io_base.hpp] are included by the [io_base_test]
    scenario; the classes below follow the documented contract of the
    I/O base common core and of the output queue, with the member and
    field names the test scenario uses. *)

Module IoBase.

Section Handler.

(** [typename IOH::endpoint_type]. *)
Variable E : Type.

(** A [chops::const_shared_buffer]: an immutable run of bytes. *)
Definition const_shared_buffer : Type := list Byte.byte.

Definition buf_size (b : const_shared_buffer) : nat := length b.

(** An element of the output queue: a buffer and an optional endpoint
    (present for UDP with a destination per datagram). *)
Definition queue_element : Type := (const_shared_buffer * option E)%type.

(** Modelled from the spec: the class [output_queue] (header
    [output_queue.hpp]), a plain FIFO with push-back, pop-front and O(1)
    size and byte counters; the byte counter is kept beside the
    container and adjusted on every push and pop. *)
Record output_queue : Type := mk_output_queue {
  m_output_queue : list queue_element;
  m_current_num_bytes : nat
}.

Record output_queue_stats : Type := mk_stats {
  output_queue_size : nat;
  bytes_in_output_queue : nat
}.

(** Modelled from the spec: the empty [output_queue] a new handler
    owns. *)
Definition oq_init : output_queue :=
  {| m_output_queue := []; m_current_num_bytes := 0 |}.

(** Modelled from the spec: [output_queue::add_element], the push-back
    of the FIFO, adding the buffer size to the byte counter. *)
Definition add_element (buf : const_shared_buffer) (endp : option E)
    (oq : output_queue) : output_queue :=
  {| m_output_queue := m_output_queue oq ++ [(buf, endp)];
     m_current_num_bytes := m_current_num_bytes oq + buf_size buf |}.

(** Modelled from the spec: [output_queue::get_next_element], the
    pop-front of the FIFO, taking the buffer size off the byte
    counter. *)
Definition oq_get_next_element (oq : output_queue)
  : option queue_element * output_queue :=
  match m_output_queue oq with
  | [] => (None, oq)
  | e :: rest =>
      (Some e,
       {| m_output_queue := rest;
          m_current_num_bytes := m_current_num_bytes oq - buf_size (fst e) |})
  end.

(** Modelled from the spec: [output_queue::get_queue_stats], the element
    count and the byte counter. *)
Definition get_queue_stats (oq : output_queue) : output_queue_stats :=
  {| output_queue_size := length (m_output_queue oq);
     bytes_in_output_queue := m_current_num_bytes oq |}.

(** Bytes actually held by a list of queue elements. *)
Definition queued_bytes (l : list queue_element) : nat :=
  list_sum (map (fun e => buf_size (fst e)) l).

(** Modelled from the spec: the data members of [io_base] (header
    [io_base.hpp]): the I/O-started flag, the write-in-progress flag and
    the output queue, the last two under one lock. *)
Record io_base : Type := mk_io_base {
  m_io_started : bool;
  m_write_in_progress : bool;
  m_outq : output_queue
}.

(** Modelled from the spec: a new [io_base]; the test scenario requires
    both flags false and empty queue statistics. *)
Definition init : io_base :=
  {| m_io_started := false; m_write_in_progress := false;
     m_outq := oq_init |}.

(** Modelled from the spec: [io_base::is_io_started]. *)
Definition is_io_started (s : io_base) : bool := m_io_started s.

(** Modelled from the spec: [io_base::is_write_in_progress]. *)
Definition is_write_in_progress (s : io_base) : bool :=
  m_write_in_progress s.

(** Modelled from the spec: [io_base::get_output_queue_stats]. *)
Definition get_output_queue_stats (s : io_base) : output_queue_stats :=
  get_queue_stats (m_outq s).

(** Modelled from the spec: [io_base::set_io_started], the transition
    false to true by compare-and-set; false if already started. *)
Definition set_io_started (s : io_base) : bool * io_base :=
  let '(won, started', _) :=
    Atomic.compare_exchange_strong (m_io_started s) false true in
  (won, {| m_io_started := started';
           m_write_in_progress := m_write_in_progress s;
           m_outq := m_outq s |}).

(** Modelled from the spec: [io_base::set_io_stopped], the transition
    true to false by compare-and-set; false if already stopped. *)
Definition set_io_stopped (s : io_base) : bool * io_base :=
  let '(won, started', _) :=
    Atomic.compare_exchange_strong (m_io_started s) true false in
  (won, {| m_io_started := started';
           m_write_in_progress := m_write_in_progress s;
           m_outq := m_outq s |}).

(** Modelled from the spec: [io_base::start_write_setup]. If not
    [io_started], return false. Under the lock: if [write_in_progress]
    is false, set it true, do not enqueue, return true; otherwise append
    to the output queue and return false. *)
Definition start_write_setup (buf : const_shared_buffer) (endp : option E)
    (s : io_base) : bool * io_base :=
  if negb (m_io_started s) then (false, s)
  else if negb (m_write_in_progress s)
  then (true, {| m_io_started := m_io_started s;
                 m_write_in_progress := true;
                 m_outq := m_outq s |})
  else (false, {| m_io_started := m_io_started s;
                  m_write_in_progress := m_write_in_progress s;
                  m_outq := add_element buf endp (m_outq s) |}).

(** Modelled from the spec: [io_base::get_next_element]. Under the lock:
    if the queue is empty, set [write_in_progress] false and return
    empty; else dequeue the head and return it. *)
Definition get_next_element (s : io_base)
  : option queue_element * io_base :=
  match m_output_queue (m_outq s) with
  | [] => (None, {| m_io_started := m_io_started s;
                    m_write_in_progress := false;
                    m_outq := m_outq s |})
  | _ :: _ =>
      let '(e, oq') := oq_get_next_element (m_outq s) in
      (e, {| m_io_started := m_io_started s;
             m_write_in_progress := m_write_in_progress s;
             m_outq := oq' |})
  end.

(** *** Sequences of calls on one handler *)

Inductive call : Type :=
| SetIoStarted
| SetIoStopped
| StartWriteSetup (buf : const_shared_buffer) (endp : option E)
| GetNextElement.

Definition run_call (c : call) (s : io_base) : io_base :=
  match c with
  | SetIoStarted => snd (set_io_started s)
  | SetIoStopped => snd (set_io_stopped s)
  | StartWriteSetup buf endp => snd (start_write_setup buf endp s)
  | GetNextElement => snd (get_next_element s)
  end.

Definition run_calls (cs : list call) (s : io_base) : io_base :=
  fold_left (fun st c => run_call c st) cs s.

(** The handlers that exist: a new one, and whatever the four methods
    make of it. *)
Inductive reachable : io_base -> Prop :=
| reach_init : reachable init
| reach_call (c : call) (s : io_base) :
    reachable s -> reachable (run_call c s).

(** [chops::repeat(n, f)] for a state-changing [f]. *)
Fixpoint repeat_call (n : nat) (f : io_base -> io_base) (s : io_base)
  : io_base :=
  match n with
  | O => s
  | S n' => repeat_call n' f (f s)
  end.

(** The write-in-progress invariant: an idle handler has nothing
    queued. *)
Definition idle_means_empty (s : io_base) : Prop :=
  m_write_in_progress s = false -> m_output_queue (m_outq s) = [].

(** The byte counter is the sum of the sizes of the queued buffers. *)
Definition bytes_accurate (s : io_base) : Prop :=
  bytes_in_output_queue (get_output_queue_stats s)
  = queued_bytes (m_output_queue (m_outq s)).

(** The results of [n] calls of [get_next_element] in a row, as the
    write loop sees them. *)
Fixpoint drain (n : nat) (s : io_base) : list (option queue_element) :=
  match n with
  | O => []
  | S n' =>
      let '(e, s') := get_next_element s in
      e :: drain n' s'
  end.

(** [e->first == buf] of the test scenario: shared buffers compare by
    their bytes. *)
Definition buffer_equal (a b : const_shared_buffer) : bool :=
  if list_eq_dec Byte.byte_eq_dec a b then true else false.

(** [e->second == endp] of the test scenario, with [eqb] the [==] of
    the endpoint type. The scenario runs with [float] endpoints, whose
    [==] is not reflexive (a NaN is unequal to itself). *)
Definition endpoint_equal (eqb : E -> E -> bool) (stored : option E)
    (endp : E) : bool :=
  match stored with
  | Some x => eqb x endp
  | None => false
  end.

(** [REQUIRE (e); REQUIRE (e->first == buf);
    REQUIRE (e->second == endp)] on what [get_next_element] returned. *)
Definition element_requirements (eqb : E -> E -> bool)
    (e : option queue_element) (buf : const_shared_buffer) (endp : E)
  : bool :=
  match e with
  | Some (b, ep) => buffer_equal b buf && endpoint_equal eqb ep endp
  | None => false
  end.

(** [n] calls of [start_write_setup] with one buffer, then [m] calls of
    [get_next_element], as in the test scenario. *)
Definition writes_then_completions (buf : const_shared_buffer)
    (endp : option E) (n m : nat) (s : io_base) : io_base :=
  repeat_call m (run_call GetNextElement)
    (repeat_call n (run_call (StartWriteSetup buf endp)) s).

End Handler.

(** The buffer of the test scenario,
    [make_byte_array(0x20, 0x21, 0x22, 0x23, 0x24)]. *)
Definition test_buf : const_shared_buffer := [x20; x21; x22; x23; x24].

(** A handler after [set_io_started]. *)
Definition started_handler : io_base nat :=
  run_call (SetIoStarted nat) (init nat).

(** A started handler whose first write is outstanding. *)
Definition busy_handler : io_base nat :=
  run_call (StartWriteSetup test_buf (Some 42)) started_handler.

(** The same with a second buffer, for endpoint 43, waiting in the
    queue. *)
Definition queued_handler : io_base nat :=
  run_call (StartWriteSetup test_buf (Some 43)) busy_handler.

End IoBase.

(** ** wait_queue *)

Module WaitQueue.

Section Queue.

Variable T : Type.

(** The data members that carry state; the container is the default
    [std::deque<T>], front of the deque at the head of the list. The
    mutex and the condition variable serialise the methods and wake
    waiting readers. *)
Record wait_queue : Type := mk_wait_queue {
  m_data_queue : list T;
  m_closed : bool
}.

(** [wait_queue() = default], with [m_closed = false]. *)
Definition init : wait_queue :=
  {| m_data_queue := []; m_closed := false |}.

Definition open (q : wait_queue) : wait_queue :=
  {| m_data_queue := m_data_queue q; m_closed := false |}.

Definition close (q : wait_queue) : wait_queue :=
  {| m_data_queue := m_data_queue q; m_closed := true |}.

(** [bool push(const T& val)]. *)
Definition push (val : T) (q : wait_queue) : bool * wait_queue :=
  if m_closed q then (false, q)
  else (true, {| m_data_queue := m_data_queue q ++ [val];
                 m_closed := m_closed q |}).

(** [bool push(T&& val)]. *)
Definition push_move (val : T) (q : wait_queue) : bool * wait_queue :=
  if m_closed q then (false, q)
  else (true, {| m_data_queue := m_data_queue q ++ [val];
                 m_closed := m_closed q |}).

Definition empty (q : wait_queue) : bool :=
  match m_data_queue q with [] => true | _ :: _ => false end.

Definition size (q : wait_queue) : nat := length (m_data_queue q).

Definition is_closed (q : wait_queue) : bool := m_closed q.

(** A call of [wait_and_pop] either stays in [m_data_cond.wait] (the
    predicate [m_closed || !m_data_queue.empty()] is false, and stays
    false until another thread changes the queue) or returns. *)
Inductive pop_result : Type :=
| Blocks
| Returns (val : option T) (q' : wait_queue).

Definition wait_and_pop (q : wait_queue) : pop_result :=
  if m_closed q || negb (empty q)
  then match m_data_queue q with
       | x :: rest =>
           Returns (Some x) {| m_data_queue := rest; m_closed := m_closed q |}
       | [] => Returns None q
       end
  else Blocks.

(** The optional a call of [wait_and_pop] hands back, if it returns. *)
Definition returned_value (r : pop_result) : option (option T) :=
  match r with
  | Blocks => None
  | Returns val _ => Some val
  end.

Definition try_pop (q : wait_queue) : option T * wait_queue :=
  match m_data_queue q with
  | [] => (None, q)
  | x :: rest => (Some x, {| m_data_queue := rest; m_closed := m_closed q |})
  end.

(** *** Sequences of calls on one queue *)

Inductive call : Type :=
| Open
| Close
| Push (val : T)
| PushMove (val : T)
| WaitAndPop
| TryPop.

Definition is_open (c : call) : bool :=
  match c with Open => true | _ => false end.

(** The queue after a call. A [wait_and_pop] that blocks changes
    nothing. *)
Definition run_call (c : call) (q : wait_queue) : wait_queue :=
  match c with
  | Open => open q
  | Close => close q
  | Push v => snd (push v q)
  | PushMove v => snd (push_move v q)
  | WaitAndPop =>
      match wait_and_pop q with
      | Blocks => q
      | Returns _ q' => q'
      end
  | TryPop => snd (try_pop q)
  end.

Definition run_calls (cs : list call) (q : wait_queue) : wait_queue :=
  fold_left (fun st c => run_call c st) cs q.

(** No [open] among the calls. *)
Definition no_open (cs : list call) : bool :=
  forallb (fun c => negb (is_open c)) cs.

(** [apply(f)]: [f] is called on every element, front to back. What the
    function object does to its surroundings is a change of a state
    [S]; the queue is [const] in [apply]. *)
Definition apply (S : Type) (f : T -> S -> S) (q : wait_queue) (st : S)
  : S :=
  fold_left (fun acc elem => f elem acc) (m_data_queue q) st.

(** The value a call hands to its caller out of the queue. *)
Definition popped_by (c : call) (q : wait_queue) : list T :=
  match c with
  | WaitAndPop =>
      match wait_and_pop q with
      | Returns (Some x) _ => [x]
      | _ => []
      end
  | TryPop =>
      match fst (try_pop q) with
      | Some x => [x]
      | None => []
      end
  | _ => []
  end.

(** The value a call puts into the queue: that of a [push] that
    returned [true]. *)
Definition accepted_by (c : call) (q : wait_queue) : list T :=
  match c with
  | Push v => if fst (push v q) then [v] else []
  | PushMove v => if fst (push_move v q) then [v] else []
  | _ => []
  end.

Fixpoint popped (cs : list call) (q : wait_queue) : list T :=
  match cs with
  | [] => []
  | c :: cs' => popped_by c q ++ popped cs' (run_call c q)
  end.

Fixpoint accepted (cs : list call) (q : wait_queue) : list T :=
  match cs with
  | [] => []
  | c :: cs' => accepted_by c q ++ accepted cs' (run_call c q)
  end.

(** The flag after the calls: what the last [open] or [close] among
    them says, [b] when there is none. *)
Definition last_flag (cs : list call) (b : bool) : bool :=
  fold_left (fun acc c =>
               match c with
               | Open => false
               | Close => true
               | _ => acc
               end) cs b.

(** The results of [n] calls of [try_pop] in a row. *)
Fixpoint try_drain (n : nat) (q : wait_queue) : list (option T) :=
  match n with
  | O => []
  | S n' => fst (try_pop q) :: try_drain n' (snd (try_pop q))
  end.

(** The results of [n] calls of [wait_and_pop] in a row by one thread:
    the optional of each call that returns; the thread does not get
    past a call that blocks. *)
Fixpoint wait_drain (n : nat) (q : wait_queue) : list (option T) :=
  match n with
  | O => []
  | S n' =>
      match wait_and_pop q with
      | Blocks => []
      | Returns val q' => val :: wait_drain n' q'
      end
  end.

(** One [push] per value, in order; the queue afterwards. *)
Definition push_all (l : list T) (q : wait_queue) : wait_queue :=
  fold_left (fun acc v => snd (push v acc)) l q.

(** *** Readers inside [m_data_cond.wait]

    A reader that finds the predicate
    [m_closed || !m_data_queue.empty()] false blocks on the condition
    variable, the mutex released. It is unblocked by [notify_one] (in
    [push]), by [notify_all] (in [close]) or spuriously, and then takes
    the mutex again and tests the predicate again. Everything a thread
    does while it holds the mutex is one event. Threads are numbered. *)

(** The queue; the readers that are blocked and not notified
    ([asleep]); the readers that are unblocked and have still to take
    the mutex and test the predicate ([woken]); and what [wait_and_pop]
    has returned so far, to which reader. *)
Record shared : Type := mk_shared {
  sq : wait_queue;
  asleep : list nat;
  woken : list nat;
  delivered : list (nat * option T)
}.

(** A queue nobody is reading from yet. *)
Definition no_readers (q : wait_queue) : shared :=
  {| sq := q; asleep := []; woken := []; delivered := [] |}.

Fixpoint remove_one (t : nat) (l : list nat) : list nat :=
  match l with
  | [] => []
  | x :: l' => if Nat.eqb x t then l' else x :: remove_one t l'
  end.

Definition is_in (t : nat) (l : list nat) : bool :=
  existsb (Nat.eqb t) l.

(** [m_data_cond.notify_one()]: one of the blocked readers, if there is
    any, is unblocked; which one is not specified, [k] chooses. *)
Definition notify_one (k : nat) (s : shared) : shared :=
  match asleep s with
  | [] => s
  | t0 :: _ =>
      let t := nth (Nat.min k (length (asleep s) - 1)) (asleep s) t0 in
      {| sq := sq s;
         asleep := remove_one t (asleep s);
         woken := woken s ++ [t];
         delivered := delivered s |}
  end.

(** [m_data_cond.notify_all()]: every blocked reader is unblocked. *)
Definition notify_all (s : shared) : shared :=
  {| sq := sq s;
     asleep := [];
     woken := woken s ++ asleep s;
     delivered := delivered s |}.

(** Reader [t], holding the mutex, tests the predicate of
    [wait_and_pop]: it blocks, or goes on to the end of [wait_and_pop]
    and returns. *)
Definition test_predicate (t : nat) (s : shared) : shared :=
  match wait_and_pop (sq s) with
  | Blocks =>
      {| sq := sq s;
         asleep := asleep s ++ [t];
         woken := woken s;
         delivered := delivered s |}
  | Returns val q' =>
      {| sq := q';
         asleep := asleep s;
         woken := woken s;
         delivered := delivered s ++ [(t, val)] |}
  end.

Inductive event : Type :=
| EOpen
| EClose
| EPush (val : T) (k : nat)
| EPushMove (val : T) (k : nat)
| ETryPop
| EEnter (t : nat)
| EResume (t : nat)
| ESpurious (t : nat).

(** One event. [EEnter t]: thread [t], not inside [wait_and_pop], calls
    it. [EResume t]: the unblocked reader [t] has the mutex again.
    [ESpurious t]: the blocked reader [t] wakes without a
    notification. A [push] on a closed queue returns before
    [notify_one]. *)
Definition step (ev : event) (s : shared) : shared :=
  match ev with
  | EOpen =>
      {| sq := open (sq s); asleep := asleep s; woken := woken s;
         delivered := delivered s |}
  | EClose =>
      notify_all {| sq := close (sq s); asleep := asleep s;
                    woken := woken s; delivered := delivered s |}
  | EPush v k =>
      if fst (push v (sq s))
      then notify_one k {| sq := snd (push v (sq s)); asleep := asleep s;
                           woken := woken s; delivered := delivered s |}
      else s
  | EPushMove v k =>
      if fst (push_move v (sq s))
      then notify_one k {| sq := snd (push_move v (sq s));
                           asleep := asleep s;
                           woken := woken s; delivered := delivered s |}
      else s
  | ETryPop =>
      {| sq := snd (try_pop (sq s)); asleep := asleep s; woken := woken s;
         delivered := delivered s |}
  | EEnter t =>
      if is_in t (asleep s) || is_in t (woken s) then s
      else test_predicate t s
  | EResume t =>
      if is_in t (woken s)
      then test_predicate t
             {| sq := sq s; asleep := asleep s;
                woken := remove_one t (woken s);
                delivered := delivered s |}
      else s
  | ESpurious t =>
      if is_in t (asleep s)
      then {| sq := sq s; asleep := remove_one t (asleep s);
              woken := woken s ++ [t]; delivered := delivered s |}
      else s
  end.

Definition run_events (evs : list event) (s : shared) : shared :=
  fold_left (fun st ev => step ev st) evs s.

(** No reader sleeps through a wake-up: while some reader is blocked
    and not notified, the queue is open and holds at most as many
    elements as there are unblocked readers on their way to it. *)
Definition no_lost_wakeup (s : shared) : Prop :=
  asleep s <> [] ->
  m_closed (sq s) = false
  /\ length (m_data_queue (sq s)) <= length (woken s).

End Queue.

End WaitQueue.

(** ** net_entity_mock

    The mock entity of the test utilities: a plain [started] flag and a
    thread that delivers three callbacks. *)

Module NetEntityMock.

Section Mock.

(** [io_handler_mock_ptr], the error code type, and the types of the
    two function objects handed to [start]. *)
Variables IOP errc F1 F2 : Type.

(** [std::make_error_code(net_ip_errc::message_handler_terminated)]. *)
Variable message_handler_terminated : errc.

(** One call made by the thread: [ios(io_interface_mock(iop), n, b)] or
    [ef(io_interface_mock(iop), err)]. *)
Inductive callback : Type :=
| IoStateChange (ios : F1) (io : IOP) (n : nat) (opened : bool)
| ErrReport (ef : F2) (io : IOP) (err : errc).

(** The members [iop], [thr] and [started]. A [std::thread] is either
    not joinable ([None]: default-constructed, or joined) or joinable
    ([Some l], with [l] the calls its function has still to make). *)
Record net_entity_mock : Type := mk_mock {
  iop : IOP;
  thr : option (list callback);
  started : bool
}.

(** The mock together with the callbacks delivered so far. *)
Definition world : Type := (net_entity_mock * list callback)%type.

(** [Ret b]: the method returned [b]. [Done]: a [void] method
    returned. [SystemError]: [std::thread::join] threw
    [std::system_error]. [Terminated]: [std::terminate] was called. *)
Inductive mock_result : Type :=
| Ret (b : bool)
| Done
| SystemError
| Terminated.

(** [net_entity_mock()]: [iop] from [make_shared], [thr]
    default-constructed, [started = false]. *)
Definition init (p : IOP) : world :=
  ({| iop := p; thr := None; started := false |}, []).

Definition is_started (w : world) : bool := started (fst w).

(** The calls of the lambda given to the thread, in order (the two
    sleeps take time and do nothing else). *)
Definition thread_body (ios : F1) (ef : F2) (p : IOP) : list callback :=
  [IoStateChange ios p 1 true;
   ErrReport ef p message_handler_terminated;
   IoStateChange ios p 0 false].

(** [start]: assigning a new thread to a joinable [thr] calls
    [std::terminate]. *)
Definition start (ios : F1) (ef : F2) (w : world) : mock_result * world :=
  let '(m, log) := w in
  if started m then (Ret false, w)
  else
    match thr m with
    | Some _ =>
        (Terminated,
         ({| iop := iop m; thr := thr m; started := true |}, log))
    | None =>
        (Ret true,
         ({| iop := iop m;
             thr := Some (thread_body ios ef (iop m));
             started := true |}, log))
    end.

(** [join_thr]: [thr.join()] waits until the thread has made all its
    calls; on a thread that is not joinable it throws. *)
Definition join_thr (w : world) : mock_result * world :=
  let '(m, log) := w in
  match thr m with
  | Some pending =>
      (Done,
       ({| iop := iop m; thr := None; started := started m |},
        log ++ pending))
  | None => (SystemError, w)
  end.

Definition stop (w : world) : mock_result * world :=
  let '(m, log) := w in
  if negb (started m) then (Ret false, w)
  else
    match join_thr ({| iop := iop m; thr := thr m; started := false |}, log)
    with
    | (Done, w') => (Ret true, w')
    | (r, w') => (r, w')
    end.

(** The thread makes its next call, if it has one left. *)
Definition thread_progress (w : world) : world :=
  let '(m, log) := w in
  match thr m with
  | Some (c :: pending) =>
      ({| iop := iop m; thr := Some pending; started := started m |},
       log ++ [c])
  | _ => w
  end.


(** *** Sequences of calls on one mock, with the thread running in
    between *)

Inductive call : Type :=
| MStart (ios : F1) (ef : F2)
| MStop
| MJoin
| MProgress.



Definition run_call (c : call) (w : world) : mock_result * world :=
  match c with
  | MStart ios ef => start ios ef w
  | MStop => stop w
  | MJoin => join_thr w
  | MProgress => (Done, thread_progress w)
  end.

(** The results of the method calls in order (a step of the thread is
    no method call and has none), and the world at the end. Nothing
    runs after [std::terminate]. *)
Fixpoint run_calls (cs : list call) (w : world)
  : list (call * mock_result) * world :=
  match cs with
  | [] => ([], w)
  | c :: cs' =>
      match run_call c w with
      | (Terminated, w') => ([(c, Terminated)], w')
      | (r, w') =>
          let '(log, w'') := run_calls cs' w' in
          (match c with MProgress => log | _ => (c, r) :: log end, w'')
      end
  end.



End Mock.

End NetEntityMock.

(** * Properties of net_entity_base *)

Module NetEntityBaseFacts.

Import NetEntityBase.

Unset Implicit Arguments.

Section EntityFacts.

Variables IOH_ptr error_code F : Type.


Lemma start_cases (f : option F) (e : net_entity_base F) :
  start IOH_ptr error_code f e
  = if m_started e
    then {| ret := false; entity := e; invoked := [] |}
    else {| ret := true;
            entity := {| m_started := true; m_shutdown_change_cb := f |};
            invoked := [] |}.
Proof. destruct e as [[|] cb]; reflexivity. Qed.

Lemma stop_cases (e : net_entity_base F) :
  stop IOH_ptr error_code e
  = {| ret := m_started e;
       entity := {| m_started := false;
                    m_shutdown_change_cb := m_shutdown_change_cb e |};
       invoked := [] |}.
Proof. destruct e as [[|] cb]; reflexivity. Qed.

(** While the entity is started and nobody stops it, calls change
    nothing and no [start] succeeds. *)
Lemma started_entity_is_stable (cs : list (call IOH_ptr error_code F)) (e : net_entity_base F) :
  m_started e = true -> no_stop cs = true ->
  snd (fst (run_calls cs e)) = e
  /\ successful_starts (fst (fst (run_calls cs e))) = 0.
Proof.
  revert e. induction cs as [|c cs IH]; intros e Hs Hn; simpl.
  - split; reflexivity.
  - simpl in Hn. apply andb_prop in Hn. destruct Hn as [Hc Hn].
    assert (He : entity (run_call c e) = e
                 /\ (is_start c && ret (run_call c e) = false)).
    { destruct c as [f| |p err sz]; simpl in *.
      - rewrite start_cases, Hs. simpl. split; reflexivity.
      - discriminate Hc.
      - unfold call_shutdown_change_cb.
        destruct (m_shutdown_change_cb e); simpl; split; reflexivity. }
    destruct He as [He Hr]. rewrite He.
    destruct (IH e Hs Hn) as [IH1 IH2].
    destruct (run_calls cs e) as [[log e'] ivs]. simpl in *.
    split; [exact IH1|].
    unfold successful_starts in *. simpl. rewrite Hr. exact IH2.
Qed.

Lemma successful_starts_le_one (cs : list (call IOH_ptr error_code F)) (e : net_entity_base F) :
  no_stop cs = true ->
  successful_starts (fst (fst (run_calls cs e))) <= 1.
Proof.
  revert e. induction cs as [|c cs IH]; intros e Hn; simpl.
  - unfold successful_starts. simpl. lia.
  - simpl in Hn. apply andb_prop in Hn. destruct Hn as [Hc Hn].
    destruct (is_start c && ret (run_call c e)) eqn:Hw.
    + (* this call is a start that won: the entity is started now *)
      apply andb_prop in Hw. destruct Hw as [Hst Hret].
      assert (Hs : m_started (entity (run_call c e)) = true).
      { destruct c as [f| |p err sz]; simpl in *; try discriminate.
        rewrite start_cases in *. destruct (m_started e); simpl in *;
          [discriminate | reflexivity]. }
      destruct (started_entity_is_stable cs _ Hs Hn) as [_ H0].
      destruct (run_calls cs (entity (run_call c e))) as [[log e'] ivs].
      simpl in *. unfold successful_starts in *. simpl.
      rewrite Hst, Hret. simpl. lia.
    + specialize (IH (entity (run_call c e)) Hn).
      destruct (run_calls cs (entity (run_call c e))) as [[log e'] ivs].
      simpl in *. unfold successful_starts in *. simpl.
      rewrite Hw. exact IH.
Qed.

(** *** Racing threads *)


Lemma winners_cons (t : start_pc F) (ts : list (start_pc F)) :
  winners (t :: ts) = weight t + winners ts.
Proof. unfold winners, weight. simpl. destruct (is_winner t); reflexivity. Qed.

Lemma winners_set_nth (i : nat) (t t' : start_pc F) (ts : list (start_pc F)) :
  nth_error ts i = Some t ->
  winners (set_nth i t' ts) + weight t = winners ts + weight t'.
Proof.
  revert i. induction ts as [|t0 ts IH]; intros [|i] H; simpl in H;
    try discriminate.
  - injection H as ->. simpl. rewrite !winners_cons. lia.
  - simpl. rewrite !winners_cons. specialize (IH i H). lia.
Qed.

Lemma in_set_nth (i : nat) (t' t'' x : start_pc F) (ts : list (start_pc F)) :
  In x (set_nth i t' ts) -> x = t' \/ In x (set_nth i t'' ts).
Proof.
  revert i. induction ts as [|t0 ts IH]; intros [|i] H; simpl in *;
    try contradiction.
  - destruct H as [H|H]; [left; symmetry; exact H | right; right; exact H].
  - destruct H as [H|H]; [right; left; exact H|].
    destruct (IH i H) as [H'|H']; [left; exact H' | right; right; exact H'].
Qed.

Lemma set_nth_same (i : nat) (t : start_pc F) (ts : list (start_pc F)) :
  nth_error ts i = Some t -> set_nth i t ts = ts.
Proof.
  revert i. induction ts as [|t0 ts IH]; intros [|i] H; simpl in *;
    try discriminate.
  - injection H as ->. reflexivity.
  - rewrite (IH i H). reflexivity.
Qed.

Lemma no_winner_in (x : start_pc F) (ts : list (start_pc F)) :
  winners ts = 0 -> In x ts -> is_winner x = false.
Proof.
  induction ts as [|t0 ts IH]; intros Hw Hin; simpl in Hin; [contradiction|].
  rewrite winners_cons in Hw. unfold weight in Hw.
  destruct Hin as [->|Hin].
  - destruct (is_winner x); [discriminate | reflexivity].
  - apply IH; [lia | exact Hin].
Qed.


Lemma race_inv_step (i : nat) (m : net_entity_base F * list (start_pc F)) :
  race_inv m -> race_inv (sched_step i m).
Proof.
  destruct m as [e ts]. intros (Hle & Hz & Hcb). unfold sched_step.
  destruct (nth_error ts i) as [t|] eqn:Hi; [|repeat split; assumption].
  simpl in *.
  destruct t as [f|f|f r]; simpl.
  - (* compare-and-set *)
    destruct e as [[|] cb]; simpl in *.
    + pose proof (winners_set_nth i _ (Returned f false) ts Hi) as Hw.
      unfold weight in Hw. simpl in Hw.
      repeat split; simpl.
      * lia.
      * discriminate.
      * intros g Hin.
        destruct (in_set_nth i _ (AtCas f) _ ts Hin) as [H|H]; [discriminate|].
        rewrite (set_nth_same i _ ts Hi) in H. apply Hcb. exact H.
    + pose proof (winners_set_nth i _ (AtStore f) ts Hi) as Hw.
      unfold weight in Hw. simpl in Hw. specialize (Hz eq_refl).
      repeat split; simpl.
      * lia.
      * discriminate.
      * intros g Hin.
        destruct (in_set_nth i _ (AtCas f) _ ts Hin) as [H|H]; [discriminate|].
        rewrite (set_nth_same i _ ts Hi) in H.
        pose proof (no_winner_in _ _ Hz H) as Hnw. discriminate Hnw.
  - (* the winner stores its callable *)
    pose proof (winners_set_nth i _ (Returned f true) ts Hi) as Hw.
    pose proof (winners_set_nth i _ (AtCas f) ts Hi) as Hw0.
    unfold weight in Hw, Hw0. simpl in Hw, Hw0.
    repeat split; simpl.
    + lia.
    + intros Hs. specialize (Hz Hs). lia.
    + intros g Hin.
      destruct (in_set_nth i _ (AtCas f) _ ts Hin) as [H|H].
      * injection H as ->. reflexivity.
      * assert (Hnone : winners (set_nth i (AtCas f) ts) = 0) by lia.
        pose proof (no_winner_in _ _ Hnone H) as Hnw. discriminate Hnw.
  - (* already returned *)
    rewrite (set_nth_same i _ ts Hi). repeat split; assumption.
Qed.

Lemma race_inv_run (sched : list nat) (m : net_entity_base F * list (start_pc F)) :
  race_inv m -> race_inv (run_schedule sched m).
Proof.
  revert m. induction sched as [|i sched IH]; intros m H; simpl.
  - exact H.
  - apply IH. apply race_inv_step. exact H.
Qed.

Lemma winners_all_at_cas (fs : list (option F)) : winners (map (@AtCas F) fs) = 0.
Proof. induction fs as [|f fs IH]; [reflexivity|]. rewrite map_cons, winners_cons. simpl. exact IH. Qed.

Lemma race_inv_initial (e : net_entity_base F) (fs : list (option F)) :
  race_inv (e, map (@AtCas F) fs).
Proof.
  unfold race_inv. simpl. rewrite winners_all_at_cas.
  repeat split; try lia.
  intros g Hin. apply in_map_iff in Hin. destruct Hin as (x & Hx & _).
  discriminate Hx.
Qed.


Lemma lost_inv_step (e0 : net_entity_base F) (i : nat) (m : net_entity_base F * list (start_pc F)) :
  m_started e0 = true -> lost_inv e0 m -> lost_inv e0 (sched_step i m).
Proof.
  destruct m as [e ts]. intros Hs [He Hw]. simpl in He. subst e.
  unfold sched_step.
  destruct (nth_error ts i) as [t|] eqn:Hi; [|split; [reflexivity | exact Hw]].
  simpl in Hw.
  assert (Ht : is_winner t = false).
  { apply (no_winner_in t ts Hw). eapply nth_error_In. exact Hi. }
  destruct t as [f|f|f r]; simpl in Ht; try discriminate.
  - simpl. destruct e0 as [s cb]. simpl in Hs. subst s. simpl.
    pose proof (winners_set_nth i _ (Returned f false) ts Hi) as Hw'.
    unfold weight in Hw'. simpl in Hw'.
    split; simpl; [reflexivity | lia].
  - subst r. simpl. rewrite (set_nth_same i _ ts Hi). split; [reflexivity | exact Hw].
Qed.

Lemma lost_inv_run (e0 : net_entity_base F) (sched : list nat)
    (m : net_entity_base F * list (start_pc F)) :
  m_started e0 = true -> lost_inv e0 m ->
  lost_inv e0 (run_schedule sched m).
Proof.
  intros Hs. revert m. induction sched as [|i sched IH]; intros m H; simpl.
  - exact H.
  - apply IH. apply lost_inv_step; assumption.
Qed.

(** *** Main results on [start] and [stop] *)

(** C1. At most one call to [start] succeeds between stops. A [start] on
    an entity that is not started wins the compare-and-set on
    [m_started], stores the supplied shutdown callback and returns true;
    a [start] on a started entity returns false and leaves the entity,
    stored callback included, as it was. In any sequence of calls
    without a [stop] at most one [start] returns true, and when the
    entity was not started it is the first one, whose callback is the
    one stored at the end. The same holds when the threads race inside
    [start], whatever the schedule: at most one compare-and-set
    succeeds, a thread that returned true finds its own callback stored,
    and on a started entity nobody wins and nothing is written. *)
Theorem start_single_winner (e : net_entity_base F) (f : option F) :
  start IOH_ptr error_code f e
  = (if m_started e
     then {| ret := false; entity := e; invoked := [] |}
     else {| ret := true;
             entity := {| m_started := true;
                          m_shutdown_change_cb := f |};
             invoked := [] |})
  /\ (forall cs : list (call IOH_ptr error_code F),
        no_stop cs = true ->
        successful_starts (fst (fst (run_calls cs e))) <= 1)
  /\ (forall cs : list (call IOH_ptr error_code F),
        no_stop cs = true -> m_started e = false ->
        successful_starts (fst (fst (run_calls (CStart _ _ f :: cs) e))) = 1
        /\ snd (fst (run_calls (CStart _ _ f :: cs) e))
           = {| m_started := true; m_shutdown_change_cb := f |})
  /\ (forall (fs : list (option F)) (sched : list nat),
        winners (snd (run_schedule sched (e, map (@AtCas F) fs))) <= 1
        /\ (forall g : option F,
              In (Returned g true)
                 (snd (run_schedule sched (e, map (@AtCas F) fs))) ->
              m_shutdown_change_cb
                (fst (run_schedule sched (e, map (@AtCas F) fs))) = g)
        /\ (m_started e = true ->
            fst (run_schedule sched (e, map (@AtCas F) fs)) = e
            /\ winners (snd (run_schedule sched (e, map (@AtCas F) fs))) = 0)).
Proof.
  split; [apply start_cases|].
  split; [intros cs Hn; apply successful_starts_le_one; exact Hn|].
  split.
  - intros cs Hn Hs. simpl. rewrite start_cases, Hs. simpl.
    destruct (started_entity_is_stable cs
                {| m_started := true; m_shutdown_change_cb := f |}
                eq_refl Hn) as [He H0].
    destruct (run_calls cs _) as [[log e'] ivs]. simpl in *.
    split; [|exact He].
    unfold successful_starts in *. simpl. rewrite H0. reflexivity.
  - intros fs sched.
    destruct (race_inv_run sched _ (race_inv_initial e fs)) as (H1 & _ & H3).
    split; [exact H1|]. split; [exact H3|].
    intros Hs. apply (lost_inv_run e sched _ Hs).
    split; [reflexivity | apply winners_all_at_cas].
Qed.

(** C6. [stop] is a compare-and-set of [m_started] from true to false:
    it returns true exactly when the entity was started (so false when
    it is stopped already), the entity is not started afterwards, and
    [stop] invokes nothing. Of all the methods only
    [call_shutdown_change_cb] invokes the stored callback. *)
Theorem stop_cas_invokes_nothing (e : net_entity_base F) :
  stop IOH_ptr error_code e
  = {| ret := m_started e;
       entity := {| m_started := false;
                    m_shutdown_change_cb := m_shutdown_change_cb e |};
       invoked := [] |}
  /\ ret (stop IOH_ptr error_code e)
     = fst (fst (Atomic.compare_exchange_strong (m_started e) true false))
  /\ m_started (entity (stop IOH_ptr error_code e))
     = snd (fst (Atomic.compare_exchange_strong (m_started e) true false))
  /\ (forall c : call IOH_ptr error_code F,
        invoked (run_call c e)
        = match c, m_shutdown_change_cb e with
          | CShutdown _ p err sz, Some g => [mk_invocation g p err sz]
          | _, _ => []
          end).
Proof.
  split; [apply stop_cases|].
  split; [destruct e as [[|] cb]; reflexivity|].
  split; [destruct e as [[|] cb]; reflexivity|].
  intros [g| |p err sz]; simpl.
  - rewrite start_cases. destruct (m_started e); reflexivity.
  - rewrite stop_cases. reflexivity.
  - unfold call_shutdown_change_cb.
    destruct (m_shutdown_change_cb e); reflexivity.
Qed.

(** C7, as the code has it. The stored callback is set by a winning
    [start], to what was supplied; [stop] leaves it as it is, so that
    after a [stop] that returned true the entity still holds what the
    winning [start] stored. No call other than a [start] that returns
    true changes it. A later [call_shutdown_change_cb] invokes exactly
    the stored callable, once, when one was supplied, and ends in
    [std::bad_function_call], invoking nothing, when what was supplied
    was empty. *)
Theorem stop_leaves_callback (e : net_entity_base F) (f : option F)
    (Hfresh : m_started e = false) :
  m_shutdown_change_cb (entity (start IOH_ptr error_code f e)) = f
  /\ (forall e' : net_entity_base F,
        m_shutdown_change_cb (entity (stop IOH_ptr error_code e'))
        = m_shutdown_change_cb e')
  /\ ret (stop IOH_ptr error_code (entity (start IOH_ptr error_code f e)))
     = true
  /\ m_shutdown_change_cb
       (entity (stop IOH_ptr error_code
                  (entity (start IOH_ptr error_code f e)))) = f
  /\ (forall (c : call IOH_ptr error_code F) (e' : net_entity_base F),
        m_shutdown_change_cb (entity (run_call c e'))
        = match c with
          | CStart _ _ g =>
              if ret (run_call c e') then g else m_shutdown_change_cb e'
          | _ => m_shutdown_change_cb e'
          end)
  /\ (forall (p : IOH_ptr) (err : error_code) (sz : N),
        invoked (call_shutdown_change_cb p err sz
                   (entity (stop IOH_ptr error_code
                              (entity (start IOH_ptr error_code f e)))))
        = match f with
          | Some g => [mk_invocation g p err sz]
          | None => []
          end
        /\ ret (call_shutdown_change_cb p err sz
                  (entity (stop IOH_ptr error_code
                             (entity (start IOH_ptr error_code f e)))))
           = match f with
             | Some _ => Some tt
             | None => None
             end).
Proof.
  rewrite start_cases, Hfresh. simpl.
  split; [reflexivity|].
  split; [intros e'; rewrite stop_cases; reflexivity|].
  split; [reflexivity|]. split; [reflexivity|].
  split.
  - intros [g| |p err sz] e'; simpl.
    + rewrite start_cases. destruct (m_started e'); reflexivity.
    + rewrite stop_cases. reflexivity.
    + unfold call_shutdown_change_cb.
      destruct (m_shutdown_change_cb e') eqn:Hcb; simpl; exact Hcb.
  - intros p err sz. unfold call_shutdown_change_cb. simpl.
    destruct f; split; reflexivity.
Qed.

End EntityFacts.

(** C1 on three threads racing to start a new entity with callbacks 10,
    11 and 12, and on five calls in a row. *)
Lemma start_single_winner_witness :
  successful_starts
    (fst (fst (run_calls
                 [CStart unit unit (Some 10); CStart unit unit (Some 11);
                  CShutdown nat tt tt 0%N; CStart unit unit (Some 12)]
                 (init nat)))) <= 1
  /\ snd (fst (run_calls
                 [CStart unit unit (Some 10); CStart unit unit (Some 11);
                  CStart unit unit (Some 12)] (init nat)))
     = {| m_started := true; m_shutdown_change_cb := Some 10 |}
  /\ m_shutdown_change_cb
       (fst (run_schedule [1; 0; 2; 1; 0; 2]
               (init nat, map (@AtCas nat) [Some 10; Some 11; Some 12]))) = Some 11
  /\ fst (run_schedule [1; 0; 2; 1; 0; 2]
            ({| m_started := true; m_shutdown_change_cb := Some 7 |},
             map (@AtCas nat) [Some 10; Some 11; Some 12]))
     = {| m_started := true; m_shutdown_change_cb := Some 7 |}.
Proof.
  split.
  { apply (start_single_winner unit unit nat (init nat) (Some 10)). reflexivity. }
  split.
  { apply (start_single_winner unit unit nat (init nat) (Some 10));
      reflexivity. }
  split.
  { apply (start_single_winner unit unit nat (init nat) (Some 10)).
    vm_compute. right. left. reflexivity. }
  { apply (start_single_winner unit unit nat
             {| m_started := true; m_shutdown_change_cb := Some 7 |}
             (Some 10)).
    reflexivity. }
Defined.

(** C7 as written fails: after [start] with callback 7 and a [stop] that
    returns true, the entity still holds callback 7; the stored function
    is not empty. *)
Lemma stop_keeps_callback_counterexample :
  ret (start unit unit (Some 7) (init nat)) = true
  /\ ret (stop unit unit (entity (start unit unit (Some 7) (init nat)))) = true
  /\ m_shutdown_change_cb
       (entity (stop unit unit (entity (start unit unit (Some 7) (init nat)))))
     = Some 7
  /\ m_shutdown_change_cb
       (entity (stop unit unit (entity (start unit unit (Some 7) (init nat)))))
     <> None.
Proof. repeat split. discriminate. Qed.

Lemma stop_leaves_callback_witness :
  m_started (init nat) = false
  /\ m_shutdown_change_cb
       (entity (stop unit unit (entity (start unit unit (Some 7) (init nat)))))
     = Some 7.
Proof.
  split; [reflexivity|].
  apply (stop_leaves_callback unit unit nat (init nat) (Some 7)). reflexivity.
Defined.

End NetEntityBaseFacts.

(** * Properties of io_base and its output queue *)

Module IoBaseFacts.

Import IoBase.

Unset Implicit Arguments.

Section HandlerFacts.

Variable E : Type.

Lemma get_next_element_empty (s : io_base E) :
  m_output_queue (m_outq s) = [] ->
  get_next_element s
  = (None, {| m_io_started := m_io_started s;
              m_write_in_progress := false;
              m_outq := m_outq s |}).
Proof. intros H. unfold get_next_element. rewrite H. reflexivity. Qed.

Lemma get_next_element_cons (s : io_base E) (e : queue_element E)
    (rest : list (queue_element E)) :
  m_output_queue (m_outq s) = e :: rest ->
  get_next_element s
  = (Some e,
     {| m_io_started := m_io_started s;
        m_write_in_progress := m_write_in_progress s;
        m_outq := {| m_output_queue := rest;
                     m_current_num_bytes :=
                       m_current_num_bytes (m_outq s) - buf_size (fst e) |}
     |}).
Proof.
  intros H. unfold get_next_element, oq_get_next_element.
  rewrite H. reflexivity.
Qed.

Lemma get_next_element_queue (s : io_base E) :
  m_output_queue (m_outq (snd (get_next_element s)))
  = tl (m_output_queue (m_outq s)).
Proof.
  destruct (m_output_queue (m_outq s)) as [|e rest] eqn:Hq.
  - rewrite (get_next_element_empty s Hq). simpl. exact Hq.
  - rewrite (get_next_element_cons s e rest Hq). reflexivity.
Qed.

Lemma queued_bytes_app (l1 l2 : list (queue_element E)) :
  queued_bytes (l1 ++ l2) = queued_bytes l1 + queued_bytes l2.
Proof.
  unfold queued_bytes. rewrite map_app, list_sum_app. reflexivity.
Qed.

(** Both invariants survive every method. *)
Lemma invariants_step (c : call E) (s : io_base E) :
  idle_means_empty s /\ bytes_accurate s ->
  idle_means_empty (run_call c s) /\ bytes_accurate (run_call c s).
Proof.
  unfold idle_means_empty, bytes_accurate, get_output_queue_stats,
    get_queue_stats. simpl.
  intros [Hidle Hbytes].
  destruct c as [| |buf endp|]; simpl.
  - unfold set_io_started.
    destruct (Atomic.compare_exchange_strong _ _ _) as [[won st] ex].
    simpl. split; assumption.
  - unfold set_io_stopped.
    destruct (Atomic.compare_exchange_strong _ _ _) as [[won st] ex].
    simpl. split; assumption.
  - unfold start_write_setup.
    destruct (m_io_started s); simpl; [|split; assumption].
    destruct (m_write_in_progress s) eqn:Hw; simpl.
    + split; [discriminate|].
      rewrite queued_bytes_app, Hbytes. unfold queued_bytes. simpl. lia.
    + split; [discriminate | exact Hbytes].
  - destruct (m_output_queue (m_outq s)) as [|e rest] eqn:Hq.
    + rewrite (get_next_element_empty s Hq). simpl.
      split; [intros _; exact Hq | rewrite Hbytes, Hq; reflexivity].
    + rewrite (get_next_element_cons s e rest Hq). simpl.
      split.
      * intros Hw. specialize (Hidle Hw). discriminate Hidle.
      * rewrite Hbytes. unfold queued_bytes. simpl. lia.
Qed.

Lemma invariants_init :
  idle_means_empty (init E) /\ bytes_accurate (init E).
Proof. split; [intros _; reflexivity | reflexivity]. Qed.

Lemma invariants_reachable (s : io_base E) :
  reachable s -> idle_means_empty s /\ bytes_accurate s.
Proof.
  induction 1 as [|c s Hr IH].
  - apply invariants_init.
  - apply invariants_step. exact IH.
Qed.

Lemma run_calls_app (cs1 cs2 : list (call E)) (s : io_base E) :
  run_calls (cs1 ++ cs2) s = run_calls cs2 (run_calls cs1 s).
Proof. unfold run_calls. apply fold_left_app. Qed.

Lemma reachable_run_calls (cs : list (call E)) (s : io_base E) :
  reachable s -> reachable (run_calls cs s).
Proof.
  revert s. induction cs as [|c cs IH]; intros s Hr; simpl.
  - exact Hr.
  - apply IH. apply reach_call. exact Hr.
Qed.

Lemma reachable_iff_run_calls (s : io_base E) :
  reachable s <-> exists cs, s = run_calls cs (init E).
Proof.
  split.
  - induction 1 as [|c s Hr [cs IH]].
    + exists []. reflexivity.
    + exists (cs ++ [c]). rewrite run_calls_app, <- IH. reflexivity.
  - intros [cs ->]. apply reachable_run_calls. constructor.
Qed.

Lemma reachable_repeat_call (c : call E) (n : nat) (s : io_base E) :
  reachable s -> reachable (repeat_call n (run_call c) s).
Proof.
  revert s. induction n as [|n IH]; intros s Hr; simpl.
  - exact Hr.
  - apply IH. apply reach_call. exact Hr.
Qed.

Lemma repeat_start_write_setup_busy (buf : const_shared_buffer)
    (endp : option E) (n : nat) (s : io_base E) :
  m_io_started s = true -> m_write_in_progress s = true ->
  m_io_started (repeat_call n (run_call (StartWriteSetup buf endp)) s) = true
  /\ m_write_in_progress
       (repeat_call n (run_call (StartWriteSetup buf endp)) s) = true
  /\ m_output_queue
       (m_outq (repeat_call n (run_call (StartWriteSetup buf endp)) s))
     = m_output_queue (m_outq s) ++ repeat (buf, endp) n.
Proof.
  revert s. induction n as [|n IH]; intros s Hs Hw; cbn [repeat_call repeat].
  - rewrite app_nil_r. repeat split; assumption.
  - set (s1 := run_call (StartWriteSetup buf endp) s).
    assert (H1 : m_io_started s1 = true /\ m_write_in_progress s1 = true
                 /\ m_output_queue (m_outq s1)
                    = m_output_queue (m_outq s) ++ [(buf, endp)]).
    { unfold s1. simpl. unfold start_write_setup. rewrite Hs, Hw. simpl.
      repeat split; assumption. }
    destruct H1 as (Hs1 & Hw1 & Hq1).
    destruct (IH s1 Hs1 Hw1) as (A & B & C).
    repeat split; [exact A | exact B |].
    rewrite C, Hq1, <- app_assoc. reflexivity.
Qed.

Lemma skipn_tl (A : Type) (m : nat) (l : list A) :
  skipn m (tl l) = skipn (S m) l.
Proof. destruct l; [destruct m; reflexivity | reflexivity]. Qed.

Lemma repeat_get_next_element_queue (m : nat) (s : io_base E) :
  m_output_queue (m_outq (repeat_call m (run_call (GetNextElement E)) s))
  = skipn m (m_output_queue (m_outq s)).
Proof.
  revert s. induction m as [|m IH]; intros s; simpl repeat_call.
  - reflexivity.
  - rewrite IH. simpl run_call. rewrite get_next_element_queue.
    apply skipn_tl.
Qed.

Lemma skipn_repeat_same (A : Type) (x : A) (m n : nat) :
  skipn m (repeat x n) = repeat x (n - m).
Proof.
  revert n. induction m as [|m IH]; intros [|n]; simpl; try reflexivity.
  apply IH.
Qed.

Lemma queued_bytes_repeat (buf : const_shared_buffer) (endp : option E)
    (n : nat) :
  queued_bytes (repeat (buf, endp) n) = n * buf_size buf.
Proof.
  unfold queued_bytes. induction n as [|n IH]; simpl; [reflexivity|].
  rewrite IH. reflexivity.
Qed.

Lemma drain_whole_queue (s : io_base E) :
  drain (length (m_output_queue (m_outq s))) s
  = map Some (m_output_queue (m_outq s)).
Proof.
  remember (m_output_queue (m_outq s)) as q eqn:Hq.
  revert s Hq. induction q as [|e rest IH]; intros s Hq; simpl.
  - reflexivity.
  - rewrite (get_next_element_cons s e rest (eq_sym Hq)).
    f_equal. apply IH. reflexivity.
Qed.

(** *** Main results on the write-in-progress guard and the queue *)

(** C2. [start_write_setup] on a handler that is not started returns
    false and changes nothing. On a started handler with no write in
    progress it sets [write_in_progress], leaves the output queue and its
    statistics as they were and returns true. On a started handler with
    a write in progress it appends (buffer, endpoint) at the back of the
    output queue, which grows by exactly one element, and returns
    false. *)
Theorem start_write_setup_cases (buf : const_shared_buffer)
    (endp : option E) (s : io_base E) :
  (m_io_started s = false ->
     start_write_setup buf endp s = (false, s))
  /\ (m_io_started s = true -> m_write_in_progress s = false ->
      fst (start_write_setup buf endp s) = true
      /\ is_write_in_progress (snd (start_write_setup buf endp s)) = true
      /\ is_io_started (snd (start_write_setup buf endp s)) = true
      /\ m_outq (snd (start_write_setup buf endp s)) = m_outq s
      /\ get_output_queue_stats (snd (start_write_setup buf endp s))
         = get_output_queue_stats s)
  /\ (m_io_started s = true -> m_write_in_progress s = true ->
      fst (start_write_setup buf endp s) = false
      /\ is_write_in_progress (snd (start_write_setup buf endp s)) = true
      /\ is_io_started (snd (start_write_setup buf endp s)) = true
      /\ m_output_queue (m_outq (snd (start_write_setup buf endp s)))
         = m_output_queue (m_outq s) ++ [(buf, endp)]
      /\ output_queue_size
           (get_output_queue_stats (snd (start_write_setup buf endp s)))
         = S (output_queue_size (get_output_queue_stats s))
      /\ bytes_in_output_queue
           (get_output_queue_stats (snd (start_write_setup buf endp s)))
         = bytes_in_output_queue (get_output_queue_stats s) + buf_size buf).
Proof.
  unfold start_write_setup, is_write_in_progress, is_io_started,
    get_output_queue_stats, get_queue_stats.
  split; [|split].
  - intros Hs. rewrite Hs. reflexivity.
  - intros Hs Hw. rewrite Hs, Hw. simpl. repeat split.
  - intros Hs Hw. rewrite Hs, Hw. simpl. repeat split.
    rewrite length_app. simpl. lia.
Qed.

(** C3. [get_next_element] on an empty output queue clears
    [write_in_progress] and returns an empty optional. On a non-empty
    queue it removes the head and returns it, and [write_in_progress]
    stays true. The elements come out in the order they went in: the
    queue drains front to back, and an element queued by
    [start_write_setup] comes out unchanged, after all those queued
    before it. *)
Theorem get_next_element_fifo (s : io_base E) (Hr : reachable s) :
  (m_output_queue (m_outq s) = [] ->
     fst (get_next_element s) = None
     /\ is_write_in_progress (snd (get_next_element s)) = false
     /\ m_outq (snd (get_next_element s)) = m_outq s)
  /\ (forall (e : queue_element E) (rest : list (queue_element E)),
        m_output_queue (m_outq s) = e :: rest ->
        fst (get_next_element s) = Some e
        /\ m_output_queue (m_outq (snd (get_next_element s))) = rest
        /\ is_write_in_progress (snd (get_next_element s)) = true)
  /\ drain (length (m_output_queue (m_outq s))) s
     = map Some (m_output_queue (m_outq s))
  /\ (forall (buf : const_shared_buffer) (endp : option E),
        m_io_started s = true -> m_write_in_progress s = true ->
        drain (S (length (m_output_queue (m_outq s))))
              (snd (start_write_setup buf endp s))
        = map Some (m_output_queue (m_outq s)) ++ [Some (buf, endp)]).
Proof.
  destruct (invariants_reachable s Hr) as [Hidle _].
  split; [|split; [|split]].
  - intros Hq. rewrite (get_next_element_empty s Hq). simpl.
    repeat split.
  - intros e rest Hq. rewrite (get_next_element_cons s e rest Hq). simpl.
    repeat split. unfold is_write_in_progress. simpl.
    destruct (m_write_in_progress s) eqn:Hw; [reflexivity|].
    rewrite (Hidle Hw) in Hq. discriminate Hq.
  - apply drain_whole_queue.
  - intros buf endp Hs Hw.
    assert (Hst : snd (start_write_setup buf endp s)
                  = {| m_io_started := true; m_write_in_progress := true;
                       m_outq := add_element buf endp (m_outq s) |}).
    { unfold start_write_setup. rewrite Hs, Hw. reflexivity. }
    rewrite Hst.
    pose proof (drain_whole_queue
                  {| m_io_started := true; m_write_in_progress := true;
                     m_outq := add_element buf endp (m_outq s) |}) as Hd.
    cbn [m_outq m_output_queue add_element] in Hd.
    rewrite length_app in Hd. cbn [length] in Hd.
    rewrite Nat.add_1_r in Hd. rewrite Hd, map_app. reflexivity.
Qed.

(** C4. After any sequence of [set_io_started], [set_io_stopped],
    [start_write_setup] and [get_next_element] calls on a new handler,
    [write_in_progress] being false implies that the output queue is
    empty: no state with an idle writer and queued data is reachable. *)
Theorem idle_handler_has_empty_queue (cs : list (call E)) :
  is_write_in_progress (run_calls cs (init E)) = false ->
  m_output_queue (m_outq (run_calls cs (init E))) = []
  /\ output_queue_size (get_output_queue_stats (run_calls cs (init E))) = 0
  /\ bytes_in_output_queue (get_output_queue_stats (run_calls cs (init E)))
     = 0.
Proof.
  intros Hw.
  assert (Hr : reachable (run_calls cs (init E))).
  { apply reachable_run_calls. constructor. }
  destruct (invariants_reachable _ Hr) as [Hidle Hbytes].
  specialize (Hidle Hw).
  split; [exact Hidle|].
  split.
  - unfold get_output_queue_stats, get_queue_stats. simpl.
    rewrite Hidle. reflexivity.
  - rewrite Hbytes, Hidle. reflexivity.
Qed.

(** C5, as the model has it. On a started handler with no write in
    progress (the first call then initiates the write), for N >= 1 and
    M <= N: N calls of [start_write_setup] with one buffer followed by M
    calls of [get_next_element] leave max(0, N-1-M) elements in the
    output queue; the write is in progress after the N calls; and at
    every point on the way the byte counter of [get_output_queue_stats]
    is the sum of the sizes of the queued buffers, which at the end is
    the element count times the size of the buffer. *)
Theorem output_queue_accounting (buf : const_shared_buffer)
    (endp : option E) (N M : nat) (s : io_base E)
    (Hr : reachable s)
    (Hs : m_io_started s = true)
    (Hw : m_write_in_progress s = false)
    (HN : 1 <= N) (HM : M <= N) :
  Z.of_nat (output_queue_size
              (get_output_queue_stats
                 (writes_then_completions buf endp N M s)))
  = Z.max 0 (Z.of_nat N - 1 - Z.of_nat M)
  /\ bytes_in_output_queue
       (get_output_queue_stats (writes_then_completions buf endp N M s))
     = output_queue_size
         (get_output_queue_stats (writes_then_completions buf endp N M s))
       * buf_size buf
  /\ is_write_in_progress (writes_then_completions buf endp N 0 s) = true
  /\ (forall n m : nat,
        bytes_accurate (writes_then_completions buf endp n m s)).
Proof.
  destruct (invariants_reachable s Hr) as [Hidle _].
  specialize (Hidle Hw).
  assert (Hall : forall n m,
            reachable (writes_then_completions buf endp n m s)).
  { intros n m. unfold writes_then_completions.
    apply reachable_repeat_call, reachable_repeat_call. exact Hr. }
  destruct N as [|N]; [lia|].
  set (s1 := run_call (StartWriteSetup buf endp) s).
  assert (H1 : m_io_started s1 = true /\ m_write_in_progress s1 = true
               /\ m_output_queue (m_outq s1) = []).
  { unfold s1. simpl. unfold start_write_setup. rewrite Hs, Hw. simpl.
    repeat split; assumption. }
  destruct H1 as (Hs1 & Hw1 & Hq1).
  destruct (repeat_start_write_setup_busy buf endp N s1 Hs1 Hw1)
    as (_ & HwN & HqN).
  rewrite Hq1 in HqN. simpl in HqN.
  assert (Hq : m_output_queue
                 (m_outq (writes_then_completions buf endp (S N) M s))
               = repeat (buf, endp) (N - M)).
  { unfold writes_then_completions.
    rewrite repeat_get_next_element_queue. cbn [repeat_call].
    fold s1. rewrite HqN. apply skipn_repeat_same. }
  assert (Hsize : output_queue_size
                    (get_output_queue_stats
                       (writes_then_completions buf endp (S N) M s))
                  = N - M).
  { unfold get_output_queue_stats, get_queue_stats. simpl.
    rewrite Hq. apply repeat_length. }
  split; [rewrite Hsize; lia|].
  split.
  - destruct (invariants_reachable _ (Hall (S N) M)) as [_ Hb].
    rewrite Hb, Hq, Hsize. apply queued_bytes_repeat.
  - split.
    + unfold writes_then_completions, is_write_in_progress.
      cbn [repeat_call]. fold s1. exact HwN.
    + intros n m. apply (invariants_reachable _ (Hall n m)).
Qed.

End HandlerFacts.

(** The requirements of the [io_base_test] scenario (20 buffers of 5
    bytes, endpoint 42) hold of the model. *)
Lemma io_base_test_requirements :
  get_output_queue_stats (init nat)
  = {| output_queue_size := 0; bytes_in_output_queue := 0 |}
  /\ is_io_started (init nat) = false
  /\ is_write_in_progress (init nat) = false
  /\ fst (set_io_started (init nat)) = true
  /\ is_io_started started_handler = true
  /\ is_write_in_progress started_handler = false
  /\ fst (set_io_started started_handler) = false
  /\ fst (start_write_setup test_buf None (init nat)) = false
  /\ fst (start_write_setup test_buf None started_handler) = true
  /\ get_output_queue_stats
       (snd (start_write_setup test_buf None started_handler))
     = {| output_queue_size := 0; bytes_in_output_queue := 0 |}
  /\ fst (start_write_setup test_buf None
            (snd (start_write_setup test_buf None started_handler)))
     = false
  /\ get_output_queue_stats
       (writes_then_completions test_buf (Some 42) 20 0 started_handler)
     = {| output_queue_size := 19; bytes_in_output_queue := 95 |}
  /\ get_output_queue_stats
       (writes_then_completions test_buf (Some 42) 20 18 started_handler)
     = {| output_queue_size := 1; bytes_in_output_queue := 5 |}
  /\ get_next_element
       (writes_then_completions test_buf (Some 42) 20 18 started_handler)
     = (Some (test_buf, Some 42),
        {| m_io_started := true; m_write_in_progress := true;
           m_outq := oq_init nat |})
  /\ get_next_element
       (writes_then_completions test_buf (Some 42) 20 19 started_handler)
     = (None,
        {| m_io_started := true; m_write_in_progress := false;
           m_outq := oq_init nat |}).
Proof. repeat split. Qed.

Lemma start_write_setup_cases_witness :
  start_write_setup test_buf (Some 42) (init nat) = (false, init nat)
  /\ fst (start_write_setup test_buf (Some 42) started_handler) = true
  /\ m_output_queue
       (m_outq (snd (start_write_setup test_buf (Some 42) busy_handler)))
     = [(test_buf, Some 42)].
Proof.
  split.
  { apply (start_write_setup_cases nat test_buf (Some 42) (init nat)).
    reflexivity. }
  split.
  { destruct (start_write_setup_cases nat test_buf (Some 42) started_handler)
      as (_ & H & _).
    apply (H eq_refl eq_refl). }
  { destruct (start_write_setup_cases nat test_buf (Some 42) busy_handler)
      as (_ & _ & H).
    apply (H eq_refl eq_refl). }
Defined.

Lemma busy_handler_reachable : reachable busy_handler.
Proof. unfold busy_handler, started_handler. repeat constructor. Qed.

Lemma queued_handler_reachable : reachable queued_handler.
Proof. unfold queued_handler. constructor. exact busy_handler_reachable. Qed.

Lemma get_next_element_fifo_witness :
  reachable queued_handler
  /\ fst (get_next_element busy_handler) = None
  /\ fst (get_next_element queued_handler) = Some (test_buf, Some 43)
  /\ is_write_in_progress (snd (get_next_element queued_handler)) = true
  /\ drain 2 (snd (start_write_setup test_buf (Some 44) queued_handler))
     = [Some (test_buf, Some 43); Some (test_buf, Some 44)].
Proof.
  split; [exact queued_handler_reachable|].
  split.
  { destruct (get_next_element_fifo nat busy_handler busy_handler_reachable)
      as ((H & _) & _); [reflexivity | exact H]. }
  destruct (get_next_element_fifo nat queued_handler
              queued_handler_reachable) as (_ & H2 & _ & H4).
  destruct (H2 (test_buf, Some 43) [] eq_refl) as (Ha & _ & Hb).
  split; [exact Ha|]. split; [exact Hb|].
  apply (H4 test_buf (Some 44) eq_refl eq_refl).
Defined.

Lemma idle_handler_has_empty_queue_witness :
  m_output_queue
    (m_outq (run_calls
               [SetIoStarted nat; StartWriteSetup test_buf (Some 42);
                StartWriteSetup test_buf (Some 42); GetNextElement nat;
                GetNextElement nat]
               (init nat))) = [].
Proof.
  apply (idle_handler_has_empty_queue nat
           [SetIoStarted nat; StartWriteSetup test_buf (Some 42);
            StartWriteSetup test_buf (Some 42); GetNextElement nat;
            GetNextElement nat]).
  reflexivity.
Defined.

(** C5 as written fails on a started handler whose write is already in
    progress: one more [start_write_setup] (N = 1, M = 0) leaves one
    element in the queue, and max(0, 1-1-0) is 0. *)
Lemma accounting_busy_handler_counterexample :
  reachable busy_handler
  /\ is_io_started busy_handler = true
  /\ 1 <= 1 /\ 0 <= 1
  /\ Z.of_nat (output_queue_size
                 (get_output_queue_stats
                    (writes_then_completions test_buf (Some 42) 1 0
                       busy_handler))) = 1%Z
  /\ Z.max 0 (Z.of_nat 1 - 1 - Z.of_nat 0) = 0%Z
  /\ Z.of_nat (output_queue_size
                 (get_output_queue_stats
                    (writes_then_completions test_buf (Some 42) 1 0
                       busy_handler)))
     <> Z.max 0 (Z.of_nat 1 - 1 - Z.of_nat 0).
Proof.
  split; [exact busy_handler_reachable|].
  repeat split; try lia. discriminate.
Qed.

Lemma started_handler_reachable : reachable started_handler.
Proof. unfold started_handler. repeat constructor. Qed.

Lemma output_queue_accounting_witness :
  reachable started_handler
  /\ output_queue_size
       (get_output_queue_stats
          (writes_then_completions test_buf (Some 42) 20 18 started_handler))
     = 1
  /\ bytes_in_output_queue
       (get_output_queue_stats
          (writes_then_completions test_buf (Some 42) 20 18 started_handler))
     = 5.
Proof.
  split; [exact started_handler_reachable|].
  destruct (output_queue_accounting nat test_buf (Some 42) 20 18
              started_handler started_handler_reachable
              eq_refl eq_refl ltac:(lia) ltac:(lia)) as (H1 & H2 & _).
  assert (Hsz : output_queue_size
                  (get_output_queue_stats
                     (writes_then_completions test_buf (Some 42) 20 18
                        started_handler)) = 1) by lia.
  split; [exact Hsz|]. rewrite H2, Hsz. reflexivity.
Defined.

End IoBaseFacts.

(** * Properties of wait_queue *)

Module WaitQueueFacts.

Import WaitQueue.

Unset Implicit Arguments.

Section QueueFacts.

Variable T : Type.

Lemma push_closed (v : T) (q : wait_queue T) :
  m_closed q = true ->
  push v q = (false, q) /\ push_move v q = (false, q).
Proof.
  intros Hc. unfold push, push_move. rewrite Hc. split; reflexivity.
Qed.

Lemma closed_run_call (c : call T) (q : wait_queue T) :
  is_open c = false -> m_closed q = true -> m_closed (run_call c q) = true.
Proof.
  intros Hc Hq. destruct c as [| |v|v| |]; simpl in *.
  - discriminate Hc.
  - reflexivity.
  - unfold push. rewrite Hq. exact Hq.
  - unfold push_move. rewrite Hq. exact Hq.
  - unfold wait_and_pop. rewrite Hq. simpl.
    destruct (m_data_queue q); simpl; (reflexivity || exact Hq).
  - unfold try_pop. destruct (m_data_queue q); simpl; exact Hq.
Qed.

Lemma closed_run_calls (cs : list (call T)) (q : wait_queue T) :
  no_open cs = true -> m_closed q = true ->
  m_closed (run_calls cs q) = true.
Proof.
  revert q. induction cs as [|c cs IH]; intros q Hn Hq; simpl in *.
  - exact Hq.
  - apply andb_prop in Hn. destruct Hn as [Hc Hn].
    apply IH; [exact Hn|].
    apply closed_run_call; [|exact Hq].
    destruct (is_open c); [discriminate Hc | reflexivity].
Qed.

(** *** Main results on [close], [open], [push] and [wait_and_pop] *)

(** C8, as the code has it. Once [close] has returned, and for as long
    as no [open] is called, every [push] fails, by copy or by move: it
    returns false and leaves the queue as it is. *)
Theorem push_fails_while_closed (cs : list (call T)) (v : T)
    (q : wait_queue T) (Hno : no_open cs = true) :
  is_closed (run_calls cs (close q)) = true
  /\ push v (run_calls cs (close q)) = (false, run_calls cs (close q))
  /\ push_move v (run_calls cs (close q)) = (false, run_calls cs (close q)).
Proof.
  assert (Hc : m_closed (run_calls cs (close q)) = true).
  { apply closed_run_calls; [exact Hno | reflexivity]. }
  split; [exact Hc|]. apply push_closed. exact Hc.
Qed.

(** C9, as the code has it. On a closed queue [wait_and_pop] returns
    without waiting. It returns an empty optional when the queue holds
    no element at the time of the call; when elements remain it removes
    the front element and returns it. *)
Theorem wait_and_pop_closed (q : wait_queue T)
    (Hc : m_closed q = true) :
  wait_and_pop q <> Blocks T
  /\ (m_data_queue q = [] -> wait_and_pop q = Returns None q)
  /\ (forall (x : T) (rest : list T),
        m_data_queue q = x :: rest ->
        wait_and_pop q
        = Returns (Some x) {| m_data_queue := rest; m_closed := true |}).
Proof.
  unfold wait_and_pop. rewrite Hc. simpl.
  split; [destruct (m_data_queue q); discriminate|].
  split.
  - intros Hq. rewrite Hq. reflexivity.
  - intros x rest Hq. rewrite Hq. reflexivity.
Qed.

(** C10. [open] re-enables a closed queue: after [close] a [push] fails,
    and after [close] followed by [open] a [push], by copy or by move,
    returns true and puts the value at the back of the queue. *)
Theorem push_after_reopen (v : T) (q : wait_queue T) :
  is_closed (close q) = true
  /\ push v (close q) = (false, close q)
  /\ is_closed (open (close q)) = false
  /\ push v (open (close q))
     = (true, {| m_data_queue := m_data_queue q ++ [v];
                 m_closed := false |})
  /\ push_move v (open (close q))
     = (true, {| m_data_queue := m_data_queue q ++ [v];
                 m_closed := false |})
  /\ size (snd (push v (open (close q)))) = S (size q).
Proof.
  repeat split. unfold size. simpl. rewrite length_app. simpl. lia.
Qed.

End QueueFacts.

(** C8 as written fails: after [close] has returned, an [open] lets the
    next [push] succeed, by copy and by move. *)
Lemma push_after_close_counterexample :
  is_closed (close (init nat)) = true
  /\ push 1 (run_calls [Open nat] (close (init nat)))
     = (true, {| m_data_queue := [1]; m_closed := false |})
  /\ push_move 1 (run_calls [Open nat] (close (init nat)))
     = (true, {| m_data_queue := [1]; m_closed := false |})
  /\ fst (push 1 (run_calls [Open nat] (close (init nat)))) <> false.
Proof. repeat split. discriminate. Qed.

Lemma push_fails_while_closed_witness :
  no_open [Push 1; TryPop nat; Close nat; WaitAndPop nat] = true
  /\ push 2 (run_calls [Push 1; TryPop nat; Close nat; WaitAndPop nat]
               (close (snd (push 0 (init nat)))))
     = (false, {| m_data_queue := []; m_closed := true |}).
Proof.
  split; [reflexivity|].
  apply (push_fails_while_closed nat
           [Push 1; TryPop nat; Close nat; WaitAndPop nat] 2
           (snd (push 0 (init nat)))).
  reflexivity.
Defined.

(** C9 as written fails: a closed queue that still holds 5 hands out 5,
    not an empty optional. *)
Lemma wait_and_pop_closed_counterexample :
  is_closed (close (snd (push 5 (init nat)))) = true
  /\ wait_and_pop (close (snd (push 5 (init nat))))
     = Returns (Some 5) {| m_data_queue := []; m_closed := true |}
  /\ returned_value (wait_and_pop (close (snd (push 5 (init nat)))))
     = Some (Some 5)
  /\ returned_value (wait_and_pop (close (snd (push 5 (init nat)))))
     <> Some None.
Proof. repeat split. discriminate. Qed.

Lemma wait_and_pop_closed_witness :
  m_closed (close (snd (push 5 (init nat)))) = true
  /\ wait_and_pop (close (snd (push 5 (init nat))))
     = Returns (Some 5) {| m_data_queue := []; m_closed := true |}
  /\ wait_and_pop (close (init nat)) = Returns None (close (init nat)).
Proof.
  split; [reflexivity|].
  split.
  { destruct (wait_and_pop_closed nat (close (snd (push 5 (init nat))))
                eq_refl) as (_ & _ & H).
    apply (H 5 [] eq_refl). }
  { destruct (wait_and_pop_closed nat (close (init nat)) eq_refl)
      as (_ & H & _).
    apply (H eq_refl). }
Defined.

End WaitQueueFacts.

(** * Further properties of net_entity_base *)

Module NetEntityBaseMore.

Import NetEntityBase.
Import NetEntityBaseFacts.

Unset Implicit Arguments.

Section EntityMore.

Variables IOH_ptr error_code F : Type.

Lemma run_calls_cons_log (c : call IOH_ptr error_code F)
    (cs : list (call IOH_ptr error_code F)) (e : net_entity_base F) :
  fst (fst (run_calls (c :: cs) e))
  = (c, ret (run_call c e))
      :: fst (fst (run_calls cs (entity (run_call c e)))).
Proof.
  simpl. destruct (run_calls cs (entity (run_call c e))) as [[log e'] ivs].
  reflexivity.
Qed.

Lemma run_calls_cons_entity (c : call IOH_ptr error_code F)
    (cs : list (call IOH_ptr error_code F)) (e : net_entity_base F) :
  snd (fst (run_calls (c :: cs) e))
  = snd (fst (run_calls cs (entity (run_call c e)))).
Proof.
  simpl. destruct (run_calls cs (entity (run_call c e))) as [[log e'] ivs].
  reflexivity.
Qed.

Lemma run_calls_cons_invoked (c : call IOH_ptr error_code F)
    (cs : list (call IOH_ptr error_code F)) (e : net_entity_base F) :
  snd (run_calls (c :: cs) e)
  = invoked (run_call c e) ++ snd (run_calls cs (entity (run_call c e))).
Proof.
  simpl. destruct (run_calls cs (entity (run_call c e))) as [[log e'] ivs].
  reflexivity.
Qed.

Lemma successful_starts_cons (cr : call IOH_ptr error_code F * bool)
    (log : list (call IOH_ptr error_code F * bool)) :
  successful_starts (cr :: log)
  = Nat.b2n (is_start (fst cr) && snd cr) + successful_starts log.
Proof.
  unfold successful_starts. simpl.
  destruct (is_start (fst cr) && snd cr); reflexivity.
Qed.

Lemma successful_stops_cons (cr : call IOH_ptr error_code F * bool)
    (log : list (call IOH_ptr error_code F * bool)) :
  successful_stops (cr :: log)
  = Nat.b2n (is_stop (fst cr) && snd cr) + successful_stops log.
Proof.
  unfold successful_stops. simpl.
  destruct (is_stop (fst cr) && snd cr); reflexivity.
Qed.

(** What one call does to the flag and to the stored callable, and what
    it returns. *)
Lemma run_call_cases (c : call IOH_ptr error_code F)
    (e : net_entity_base F) :
  match c with
  | CStart _ _ f =>
      ret (run_call c e) = negb (m_started e)
      /\ entity (run_call c e)
         = {| m_started := true;
              m_shutdown_change_cb :=
                if m_started e then m_shutdown_change_cb e else f |}
      /\ invoked (run_call c e) = []
  | CStop _ _ _ =>
      ret (run_call c e) = m_started e
      /\ entity (run_call c e)
         = {| m_started := false;
              m_shutdown_change_cb := m_shutdown_change_cb e |}
      /\ invoked (run_call c e) = []
  | CShutdown _ p err sz =>
      entity (run_call c e) = e
      /\ match m_shutdown_change_cb e with
         | Some g => ret (run_call c e) = true
                     /\ invoked (run_call c e) = [mk_invocation g p err sz]
         | None => ret (run_call c e) = false
                   /\ invoked (run_call c e) = []
         end
  end.
Proof.
  destruct c as [f| |p err sz]; simpl.
  - rewrite start_cases. destruct e as [[|] cb]; simpl; repeat split.
  - rewrite stop_cases. repeat split.
  - unfold call_shutdown_change_cb.
    destruct (m_shutdown_change_cb e); simpl; repeat split.
Qed.

Lemma stopped_entity_is_stable (cs : list (call IOH_ptr error_code F))
    (e : net_entity_base F) :
  m_started e = false -> no_start cs = true ->
  snd (fst (run_calls cs e)) = e
  /\ successful_stops (fst (fst (run_calls cs e))) = 0.
Proof.
  revert e. induction cs as [|c cs IH]; intros e Hs Hn.
  - split; reflexivity.
  - simpl in Hn. apply andb_prop in Hn. destruct Hn as [Hc Hn].
    rewrite run_calls_cons_log, run_calls_cons_entity, successful_stops_cons.
    pose proof (run_call_cases c e) as Hcase.
    assert (He : entity (run_call c e) = e
                 /\ is_stop c && ret (run_call c e) = false).
    { destruct c as [f| |p err sz]; simpl in Hc; try discriminate.
      - destruct Hcase as (Hr & He & _). rewrite He, Hr, Hs.
        destruct e as [s cb]. simpl in *. subst s. split; reflexivity.
      - destruct Hcase as (He & _). split; [exact He | reflexivity]. }
    destruct He as [He Hr]. simpl fst. simpl snd. rewrite Hr, He.
    destruct (IH e Hs Hn) as [IH1 IH2]. split; [exact IH1 | exact IH2].
Qed.

Lemma successful_stops_le_one (cs : list (call IOH_ptr error_code F))
    (e : net_entity_base F) :
  no_start cs = true ->
  successful_stops (fst (fst (run_calls cs e))) <= 1.
Proof.
  revert e. induction cs as [|c cs IH]; intros e Hn.
  - unfold successful_stops. simpl. lia.
  - simpl in Hn. apply andb_prop in Hn. destruct Hn as [Hc Hn].
    rewrite run_calls_cons_log, successful_stops_cons. simpl fst. simpl snd.
    destruct (is_stop c && ret (run_call c e)) eqn:Hw.
    + apply andb_prop in Hw. destruct Hw as [Hst Hret].
      assert (Hs : m_started (entity (run_call c e)) = false).
      { destruct c as [f| |p err sz]; simpl in Hst; try discriminate.
        destruct (run_call_cases (CStop _ _ _) e) as (_ & He & _).
        rewrite He. reflexivity. }
      destruct (stopped_entity_is_stable cs _ Hs Hn) as [_ H0].
      rewrite H0. simpl. lia.
    + simpl. apply IH. exact Hn.
Qed.

Lemma last_winner_aux (cs : list (call IOH_ptr error_code F))
    (e : net_entity_base F) :
  m_shutdown_change_cb (snd (fst (run_calls cs e)))
  = last_winner (fst (fst (run_calls cs e))) (m_shutdown_change_cb e).
Proof.
  revert e. induction cs as [|c cs IH]; intros e.
  - reflexivity.
  - rewrite run_calls_cons_log, run_calls_cons_entity, IH.
    pose proof (run_call_cases c e) as Hcase.
    destruct c as [f| |p err sz].
    + destruct Hcase as (Hr & He & _). rewrite He, Hr. simpl.
      destruct (m_started e); reflexivity.
    + destruct Hcase as (Hr & He & _). rewrite He. reflexivity.
    + destruct Hcase as (He & _). rewrite He. reflexivity.
Qed.

Lemma last_winner_no_start (log : list (call IOH_ptr error_code F * bool))
    (acc : option F) :
  successful_starts log = 0 -> last_winner log acc = acc.
Proof.
  revert acc. induction log as [|[c r] log IH]; intros acc H.
  - reflexivity.
  - rewrite successful_starts_cons in H. simpl in H.
    destruct c as [f| |p err sz]; simpl in *; try (apply IH; exact H).
    destruct r; simpl in H; [discriminate|]. apply IH. exact H.
Qed.

Lemma last_winner_nonempty (log : list (call IOH_ptr error_code F * bool)) :
  nonempty_args (map fst log) = true ->
  (last_winner log (@None F) = None <-> successful_starts log = 0).
Proof.
  assert (Hsome : forall (l : list (call IOH_ptr error_code F * bool)) g,
            nonempty_args (map fst l) = true ->
            last_winner l (Some g) <> None).
  { induction l as [|[c r] l IHl]; intros g Hn; simpl; [discriminate|].
    simpl in Hn. apply andb_prop in Hn. destruct Hn as [Hc Hn].
    destruct c as [[f|]| |p err sz]; try (apply IHl; exact Hn).
    - destruct r; apply IHl; exact Hn.
    - discriminate Hc. }
  intros Hn. split; [|apply last_winner_no_start].
  induction log as [|[c r] log IH]; intros H.
  - reflexivity.
  - rewrite successful_starts_cons. simpl in Hn.
    apply andb_prop in Hn. destruct Hn as [Hc Hn]. simpl in *.
    destruct c as [[f|]| |p err sz]; simpl in *;
      try (apply (IH Hn); exact H); try discriminate Hc.
    destruct r; simpl in *; [|apply (IH Hn); exact H].
    exfalso. exact (Hsome log f Hn H).
Qed.

Lemma run_calls_log_calls (cs : list (call IOH_ptr error_code F))
    (e : net_entity_base F) :
  map fst (fst (fst (run_calls cs e))) = cs.
Proof.
  revert e. induction cs as [|c cs IH]; intros e.
  - reflexivity.
  - rewrite run_calls_cons_log. simpl. rewrite IH. reflexivity.
Qed.

Lemma invoked_aux (cs : list (call IOH_ptr error_code F))
    (e : net_entity_base F) :
  (forall i : invocation IOH_ptr error_code F,
     In i (snd (run_calls cs e)) ->
     m_shutdown_change_cb e = Some (inv_callee i)
     \/ In (CStart _ _ (Some (inv_callee i)), true)
           (fst (fst (run_calls cs e))))
  /\ length (snd (run_calls cs e))
     = completed_shutdown_calls (fst (fst (run_calls cs e))).
Proof.
  revert e. induction cs as [|c cs IH]; intros e.
  - split; [intros i []| reflexivity].
  - rewrite run_calls_cons_log, run_calls_cons_invoked.
    destruct (IH (entity (run_call c e))) as [IH1 IH2].
    pose proof (run_call_cases c e) as Hcase.
    unfold completed_shutdown_calls in *. rewrite length_app, IH2.
    destruct c as [f| |p err sz]; cbn [filter fst snd is_start is_stop negb andb].
    + destruct Hcase as (Hr & He & Hi). rewrite Hi. split; [|reflexivity].
      intros i Hin. simpl in Hin. destruct (IH1 i Hin) as [H|H].
      * rewrite He in H. simpl in H.
        destruct (m_started e) eqn:Hs; [left; exact H|].
        right. left. rewrite Hr. simpl. subst f. reflexivity.
      * right. right. exact H.
    + destruct Hcase as (Hr & He & Hi). rewrite Hi. split; [|reflexivity].
      intros i Hin. simpl in Hin. destruct (IH1 i Hin) as [H|H].
      * left. rewrite He in H. exact H.
      * right. right. exact H.
    + destruct Hcase as (He & Hcb). rewrite He in *.
      destruct (m_shutdown_change_cb e) as [g|] eqn:Hg.
      * destruct Hcb as (Hr & Hi). rewrite Hi, Hr. split; [|reflexivity].
        intros i Hin. simpl in Hin. destruct Hin as [<-|Hin].
        -- left. reflexivity.
        -- destruct (IH1 i Hin) as [H|H]; [left; exact H | right; right; exact H].
      * destruct Hcb as (Hr & Hi). rewrite Hi, Hr. split; [|reflexivity].
        intros i Hin. simpl in Hin.
        destruct (IH1 i Hin) as [H|H]; [left; exact H | right; right; exact H].
Qed.

(** *** Threads racing inside [start]: progress and serial runs *)

Lemma length_set_nth (i : nat) (t : start_pc F) (ts : list (start_pc F)) :
  length (set_nth i t ts) = length ts.
Proof.
  revert i. induction ts as [|t0 ts IH]; intros [|i]; simpl; auto.
Qed.

Lemma nth_error_set_nth_same (i : nat) (t t0 : start_pc F)
    (ts : list (start_pc F)) :
  nth_error ts i = Some t0 -> nth_error (set_nth i t ts) i = Some t.
Proof.
  revert i. induction ts as [|t1 ts IH]; intros [|i] H; simpl in *;
    try discriminate; auto.
Qed.

Lemma nth_error_set_nth_other (i j : nat) (t : start_pc F)
    (ts : list (start_pc F)) :
  i <> j -> nth_error (set_nth i t ts) j = nth_error ts j.
Proof.
  revert i j. induction ts as [|t1 ts IH]; intros [|i] [|j] H; simpl;
    try reflexivity; try congruence.
  apply IH. congruence.
Qed.

Lemma thread_step_rank (e : net_entity_base F) (t : start_pc F) :
  Nat.min 2 (S (rank t)) <= rank (snd (thread_step e t)).
Proof.
  destruct t as [f|f|f r]; simpl; try lia.
  destruct (Atomic.compare_exchange_strong (m_started e) false true)
    as [[[|] st] ex]; simpl; lia.
Qed.

Lemma sched_step_rank_self (i : nat)
    (m : net_entity_base F * list (start_pc F)) :
  Nat.min 2 (S (thread_rank (snd m) i))
  <= thread_rank (snd (sched_step i m)) i.
Proof.
  destruct m as [e ts]. unfold sched_step, thread_rank. simpl.
  destruct (nth_error ts i) as [t|] eqn:Hi.
  - pose proof (thread_step_rank e t) as Hr.
    destruct (thread_step e t) as [e' t']. simpl in *.
    rewrite (nth_error_set_nth_same i t' t ts Hi). exact Hr.
  - simpl. rewrite Hi. lia.
Qed.

Lemma sched_step_rank_other (i j : nat)
    (m : net_entity_base F * list (start_pc F)) :
  j <> i ->
  thread_rank (snd (sched_step j m)) i = thread_rank (snd m) i.
Proof.
  intros Hne. destruct m as [e ts]. unfold sched_step, thread_rank. simpl.
  destruct (nth_error ts j) as [t|] eqn:Hj; [|reflexivity].
  destruct (thread_step e t) as [e' t']. simpl.
  rewrite (nth_error_set_nth_other j i t' ts Hne). reflexivity.
Qed.

Lemma run_schedule_rank (sched : list nat) (i : nat)
    (m : net_entity_base F * list (start_pc F)) :
  Nat.min 2 (thread_rank (snd m) i + count_occ Nat.eq_dec sched i)
  <= thread_rank (snd (run_schedule sched m)) i.
Proof.
  revert m. induction sched as [|j sched IH]; intros m;
    cbn [run_schedule count_occ].
  - lia.
  - specialize (IH (sched_step j m)).
    destruct (Nat.eq_dec j i) as [->|Hne].
    + pose proof (sched_step_rank_self i m). lia.
    + rewrite (sched_step_rank_other i j m Hne) in IH. lia.
Qed.

Lemma run_schedule_length (sched : list nat)
    (m : net_entity_base F * list (start_pc F)) :
  length (snd (run_schedule sched m)) = length (snd m).
Proof.
  revert m. induction sched as [|j sched IH]; intros m; simpl.
  - reflexivity.
  - rewrite IH. destruct m as [e ts]. unfold sched_step.
    destruct (nth_error ts j) as [t|]; [|reflexivity].
    destruct (thread_step e t) as [e' t']. simpl. apply length_set_nth.
Qed.

Lemma all_returned_of_ranks (ts : list (start_pc F)) :
  (forall i, i < length ts -> thread_rank ts i = 2) ->
  all_returned ts = true.
Proof.
  induction ts as [|t ts IH]; intros H; simpl.
  - reflexivity.
  - apply andb_true_intro. split.
    + specialize (H 0 ltac:(simpl; lia)). unfold thread_rank in H.
      simpl in H. destruct t; simpl in *; (discriminate || reflexivity).
    + apply IH. intros i Hi.
      specialize (H (S i) ltac:(simpl; lia)). exact H.
Qed.

(** From an entity that is not started: the flag tells whether somebody
    has won, and until then every thread is still before its
    compare-and-set. *)
Lemma fresh_race_step (i : nat) (m : net_entity_base F * list (start_pc F)) :
  winners (snd m) = Nat.b2n (m_started (fst m))
  /\ (m_started (fst m) = false ->
      forall t, In t (snd m) -> rank t = 0) ->
  winners (snd (sched_step i m))
  = Nat.b2n (m_started (fst (sched_step i m)))
  /\ (m_started (fst (sched_step i m)) = false ->
      forall t, In t (snd (sched_step i m)) -> rank t = 0).
Proof.
  destruct m as [e ts]. intros [Hw Hz]. unfold sched_step.
  destruct (nth_error ts i) as [t|] eqn:Hi; [|split; assumption].
  simpl in Hw, Hz.
  destruct t as [f|f|f r]; simpl.
  - destruct e as [[|] cb]; simpl in *.
    + pose proof (winners_set_nth F i _ (Returned f false) ts Hi) as H.
      unfold weight in H. simpl in H.
      split; [lia | discriminate].
    + pose proof (winners_set_nth F i _ (AtStore f) ts Hi) as H.
      unfold weight in H. simpl in H.
      split; [lia | discriminate].
  - destruct (m_started e) eqn:Hs.
    + pose proof (winners_set_nth F i _ (Returned f true) ts Hi) as H.
      unfold weight in H. simpl in H.
      split; [simpl in *; lia | discriminate].
    + specialize (Hz eq_refl (AtStore f) (nth_error_In ts i Hi)).
      discriminate Hz.
  - rewrite (set_nth_same F i _ ts Hi). split; assumption.
Qed.

Lemma fresh_race_run (sched : list nat)
    (m : net_entity_base F * list (start_pc F)) :
  winners (snd m) = Nat.b2n (m_started (fst m))
  /\ (m_started (fst m) = false ->
      forall t, In t (snd m) -> rank t = 0) ->
  winners (snd (run_schedule sched m))
  = Nat.b2n (m_started (fst (run_schedule sched m)))
  /\ (m_started (fst (run_schedule sched m)) = false ->
      forall t, In t (snd (run_schedule sched m)) -> rank t = 0).
Proof.
  revert m. induction sched as [|i sched IH]; intros m H; simpl.
  - exact H.
  - apply IH. apply fresh_race_step. exact H.
Qed.

Lemma winner_exists (ts : list (start_pc F)) :
  0 < winners ts -> exists t, In t ts /\ is_winner t = true.
Proof.
  induction ts as [|t ts IH]; intros H.
  - unfold winners in H. simpl in H. lia.
  - rewrite winners_cons in H. unfold weight in H.
    destruct (is_winner t) eqn:Ht.
    + exists t. split; [left; reflexivity | exact Ht].
    + destruct (IH ltac:(simpl in H; lia)) as (t' & Hin & Hw).
      exists t'. split; [right; exact Hin | exact Hw].
Qed.

Lemma nth_error_middle (done : list (start_pc F)) (t : start_pc F)
    (rest : list (start_pc F)) :
  nth_error (done ++ t :: rest) (length done) = Some t.
Proof. induction done as [|d done IH]; simpl; auto. Qed.

Lemma set_nth_middle (done : list (start_pc F)) (t t' : start_pc F)
    (rest : list (start_pc F)) :
  set_nth (length done) t' (done ++ t :: rest) = done ++ t' :: rest.
Proof.
  induction done as [|d done IH]; simpl; [reflexivity|].
  rewrite IH. reflexivity.
Qed.

Lemma two_steps_are_start (done : list (start_pc F)) (f : option F)
    (rest : list (start_pc F)) (e : net_entity_base F) :
  sched_step (length done)
    (sched_step (length done) (e, done ++ AtCas f :: rest))
  = (entity (start IOH_ptr error_code f e),
     done ++ Returned f (ret (start IOH_ptr error_code f e)) :: rest).
Proof.
  rewrite start_cases.
  unfold sched_step at 2. rewrite nth_error_middle.
  destruct e as [[|] cb]; simpl thread_step; cbv iota beta;
    rewrite set_nth_middle; unfold sched_step;
    rewrite nth_error_middle; simpl thread_step; cbv iota beta;
    rewrite set_nth_middle; reflexivity.
Qed.

Lemma serial_schedule_aux (fs : list (option F)) (done : list (start_pc F))
    (e : net_entity_base F) :
  run_schedule (flat_map (fun i => [i; i]) (seq (length done) (length fs)))
    (e, done ++ map (@AtCas F) fs)
  = (snd (fst (run_calls (map (@CStart IOH_ptr error_code F) fs) e)),
     done ++ returned_threads fs
               (map snd
                  (fst (fst (run_calls
                               (map (@CStart IOH_ptr error_code F) fs) e))))).
Proof.
  revert done e. induction fs as [|f fs IH]; intros done e.
  - reflexivity.
  - cbn [length seq flat_map app map run_schedule].
    rewrite two_steps_are_start.
    rewrite run_calls_cons_log, run_calls_cons_entity.
    cbn [map snd run_call]. unfold returned_threads. cbn [combine map fst snd].
    specialize (IH (done ++ [Returned f (ret (start IOH_ptr error_code f e))])
                   (entity (start IOH_ptr error_code f e))).
    rewrite length_app in IH. cbn [length] in IH.
    rewrite Nat.add_1_r in IH.
    rewrite <- !app_assoc in IH. cbn [app] in IH.
    rewrite IH. unfold returned_threads. reflexivity.
Qed.

(** *** Main results *)

(** X1. [stop] is the mirror image of [start]: in any sequence of calls
    without a [start] at most one [stop] returns true, and on an entity
    that is not started no [stop] succeeds and the entity stays as it
    is. *)
Theorem stop_at_most_once (cs : list (call IOH_ptr error_code F))
    (e : net_entity_base F) (Hn : no_start cs = true) :
  successful_stops (fst (fst (run_calls cs e))) <= 1
  /\ (is_started e = false ->
      successful_stops (fst (fst (run_calls cs e))) = 0
      /\ snd (fst (run_calls cs e)) = e).
Proof.
  split; [apply successful_stops_le_one; exact Hn|].
  intros Hs. destruct (stopped_entity_is_stable cs e Hs Hn) as [H1 H2].
  split; assumption.
Qed.

(** X2. Successful [start]s and successful [stop]s keep each other in
    balance: over any sequence of calls, the number of [start]s that
    returned true plus one if the entity was started before equals the
    number of [stop]s that returned true plus one if [is_started] holds
    afterwards. On a new entity the two counts are equal or the
    [start]s lead by one, and they lead exactly when the entity is
    started. *)
Theorem start_stop_balance (cs : list (call IOH_ptr error_code F))
    (e : net_entity_base F) :
  successful_starts (fst (fst (run_calls cs e))) + Nat.b2n (is_started e)
  = successful_stops (fst (fst (run_calls cs e)))
    + Nat.b2n (is_started (snd (fst (run_calls cs e)))).
Proof.
  unfold is_started.
  revert e. induction cs as [|c cs IH]; intros e.
  - unfold successful_starts, successful_stops. simpl. reflexivity.
  - rewrite run_calls_cons_log, run_calls_cons_entity,
      successful_starts_cons, successful_stops_cons.
    specialize (IH (entity (run_call c e))).
    simpl fst. simpl snd.
    pose proof (run_call_cases c e) as Hcase.
    assert (Hm : m_started (entity (run_call c e))
                 = match c with
                   | CStart _ _ _ => true
                   | CStop _ _ _ => false
                   | CShutdown _ _ _ _ => m_started e
                   end).
    { destruct c; [destruct Hcase as (_ & He & _)
                  | destruct Hcase as (_ & He & _)
                  | destruct Hcase as (He & _)]; rewrite He; reflexivity. }
    rewrite Hm in IH.
    destruct c as [f| |p err sz]; simpl is_start; simpl is_stop.
    + destruct Hcase as (Hr & _). rewrite Hr.
      destruct (m_started e); simpl in *; lia.
    + destruct Hcase as (Hr & _). rewrite Hr.
      destruct (m_started e); simpl in *; lia.
    + cbn [andb Nat.b2n]. lia.
Qed.

(** X3. The stored callable is always the one handed to the last
    [start] that returned true (the initial one when no [start] has
    succeeded); later failed [start]s, [stop]s and shutdown calls do not
    touch it. So on an entity that began new,
    [call_shutdown_change_cb] ends in [std::bad_function_call] exactly
    when no [start] has succeeded so far or the last one that did was
    handed an empty callable; when every [start] is handed a real
    callable, exactly when no [start] has succeeded so far. *)
Theorem stored_callback_is_last_winner
    (cs : list (call IOH_ptr error_code F)) (e : net_entity_base F) :
  m_shutdown_change_cb (snd (fst (run_calls cs e)))
  = last_winner (fst (fst (run_calls cs e))) (m_shutdown_change_cb e)
  /\ (forall (p : IOH_ptr) (err : error_code) (sz : N),
        (ret (call_shutdown_change_cb p err sz
                (snd (fst (run_calls cs (init F))))) = None
         <-> last_winner (fst (fst (run_calls cs (init F)))) None = None)
        /\ (successful_starts (fst (fst (run_calls cs (init F)))) = 0 ->
            ret (call_shutdown_change_cb p err sz
                   (snd (fst (run_calls cs (init F))))) = None)
        /\ (nonempty_args cs = true ->
            (ret (call_shutdown_change_cb p err sz
                    (snd (fst (run_calls cs (init F))))) = None
             <-> successful_starts (fst (fst (run_calls cs (init F)))) = 0))).
Proof.
  split; [apply last_winner_aux|].
  intros p err sz.
  pose proof (last_winner_aux cs (init F)) as Hl.
  change (m_shutdown_change_cb (init F)) with (@None F) in Hl.
  assert (Hret : ret (call_shutdown_change_cb p err sz
                        (snd (fst (run_calls cs (init F))))) = None
                 <-> last_winner (fst (fst (run_calls cs (init F)))) None
                     = None).
  { rewrite <- Hl. unfold call_shutdown_change_cb.
    destruct (m_shutdown_change_cb (snd (fst (run_calls cs (init F)))));
      simpl; split; intros H; (discriminate || reflexivity). }
  split; [exact Hret|]. split.
  - intros H0. apply Hret. apply last_winner_no_start. exact H0.
  - intros Hn. rewrite Hret. apply last_winner_nonempty.
    rewrite run_calls_log_calls. exact Hn.
Qed.

(** X4. On an entity that began new, every callable that is ever
    invoked was handed to a [start] that returned true; a callable
    handed only to [start]s that returned false is never invoked. There
    is one invocation per [call_shutdown_change_cb] that returned
    normally. *)
Theorem invoked_callbacks_won_a_start
    (cs : list (call IOH_ptr error_code F)) :
  (forall i : invocation IOH_ptr error_code F,
     In i (snd (run_calls cs (init F))) ->
     In (CStart IOH_ptr error_code (Some (inv_callee i)), true)
        (fst (fst (run_calls cs (init F)))))
  /\ length (snd (run_calls cs (init F)))
     = completed_shutdown_calls (fst (fst (run_calls cs (init F)))).
Proof.
  destruct (invoked_aux cs (init F)) as [H1 H2].
  split; [|exact H2].
  intros i Hin. destruct (H1 i Hin) as [H|H]; [discriminate H | exact H].
Qed.

(** X5. Threads racing to [start] an entity that is not started, each
    scheduled often enough to finish (twice): all of them return,
    exactly one of them returns true, the entity is started, and the
    stored callable is the one that thread brought. *)
Theorem race_exactly_one_winner (e : net_entity_base F) (fs : list (option F))
    (sched : list nat)
    (Hfresh : is_started e = false)
    (Hsome : fs <> [])
    (Hfair : forall i, i < length fs ->
               2 <= count_occ Nat.eq_dec sched i) :
  all_returned (snd (run_schedule sched (e, map (@AtCas F) fs))) = true
  /\ winners (snd (run_schedule sched (e, map (@AtCas F) fs))) = 1
  /\ is_started (fst (run_schedule sched (e, map (@AtCas F) fs))) = true
  /\ exists g : option F,
       In g fs
       /\ In (Returned g true)
            (snd (run_schedule sched (e, map (@AtCas F) fs)))
       /\ m_shutdown_change_cb
            (fst (run_schedule sched (e, map (@AtCas F) fs))) = g.
Proof.
  unfold is_started in *. revert Hfresh Hsome Hfair.
  intros Hs Hne Hfair.
  set (m0 := (e, map (@AtCas F) fs)).
  assert (Hlen : length (snd (run_schedule sched m0)) = length fs).
  { rewrite run_schedule_length. unfold m0. simpl. apply length_map. }
  assert (Hranks : forall i, i < length fs ->
                     thread_rank (snd (run_schedule sched m0)) i = 2).
  { intros i Hi.
    pose proof (run_schedule_rank sched i m0) as Hr.
    specialize (Hfair i Hi).
    assert (Hle : thread_rank (snd (run_schedule sched m0)) i <= 2).
    { unfold thread_rank.
      destruct (nth_error _ i) as [[| |]|]; simpl; lia. }
    lia. }
  assert (Hall : all_returned (snd (run_schedule sched m0)) = true).
  { apply all_returned_of_ranks. intros i Hi. apply Hranks. lia. }
  assert (Hinit : winners (snd m0) = Nat.b2n (m_started (fst m0))
                  /\ (m_started (fst m0) = false ->
                      forall t, In t (snd m0) -> rank t = 0)).
  { unfold m0. simpl. rewrite winners_all_at_cas, Hs. split; [reflexivity|].
    intros _ t Hin. apply in_map_iff in Hin.
    destruct Hin as (f & <- & _). reflexivity. }
  destruct (fresh_race_run sched m0 Hinit) as [Hw Hz].
  assert (Hst : m_started (fst (run_schedule sched m0)) = true).
  { destruct (m_started (fst (run_schedule sched m0))) eqn:Hm;
      [reflexivity|].
    exfalso. destruct fs as [|f fs']; [apply Hne; reflexivity|].
    specialize (Hranks 0 ltac:(simpl; lia)).
    unfold thread_rank in Hranks.
    destruct (nth_error (snd (run_schedule sched m0)) 0) as [t|] eqn:Hn.
    - specialize (Hz eq_refl t (nth_error_In _ _ Hn)). lia.
    - apply nth_error_None in Hn. rewrite Hlen in Hn. simpl in Hn. lia. }
  rewrite Hst in Hw. simpl in Hw.
  split; [exact Hall|]. split; [exact Hw|]. split; [exact Hst|].
  destruct (winner_exists (snd (run_schedule sched m0)) ltac:(lia))
    as (t & Hin & Hwin).
  unfold all_returned in Hall. rewrite forallb_forall in Hall.
  specialize (Hall t Hin).
  destruct t as [f|f|g r]; simpl in Hall, Hwin; try discriminate.
  subst r. exists g.
  destruct (race_inv_run F sched m0 (race_inv_initial F e fs)) as (_ & _ & Hcb).
  pose proof (Hcb g Hin) as Hg.
  split; [|split; [exact Hin | exact Hg]].
  (* the stored callable is one of those the threads brought *)
  clear - Hin.
  assert (Hfrom : forall (sch : list nat) (m : net_entity_base F * list (start_pc F)) (x : option F) (r : bool),
            (forall t, In t (snd m) ->
               match t with
               | AtCas y | AtStore y | Returned y _ => In y fs
               end) ->
            In (Returned x r) (snd (run_schedule sch m)) -> In x fs).
  { induction sch as [|j sch IHs]; intros m x r Hm Hx; simpl in Hx.
    - apply (Hm _ Hx).
    - apply (IHs (sched_step j m) x r); [|exact Hx].
      destruct m as [e0 ts]. unfold sched_step.
      destruct (nth_error ts j) as [t0|] eqn:Hj; [|exact Hm].
      pose proof (Hm t0 (nth_error_In _ _ Hj)) as H0.
      destruct (thread_step e0 t0) as [e1 t1] eqn:Hstep. simpl.
      intros t Ht.
      destruct (in_set_nth F j t1 t0 t ts Ht) as [->|Ht'].
      + destruct t0 as [y|y|y b]; simpl in Hstep.
        * destruct (Atomic.compare_exchange_strong _ _ _) as [[[|] st] ex];
            injection Hstep as _ <-; exact H0.
        * injection Hstep as _ <-. exact H0.
        * injection Hstep as _ <-. exact H0.
      + rewrite (set_nth_same F j t0 ts Hj) in Ht'. apply (Hm t Ht'). }
  apply (Hfrom sched m0 g true); [|exact Hin].
  intros t Ht. unfold m0 in Ht. simpl in Ht. apply in_map_iff in Ht.
  destruct Ht as (y & <- & Hy). exact Hy.
Qed.

(** X6. Threads that go through [start] one after the other, each
    doing its compare-and-set and its store before the next begins,
    leave the entity as the same [start] calls made in sequence, and
    each thread returns what its call returns. *)
Theorem serial_schedule_is_sequential (fs : list (option F))
    (e : net_entity_base F) :
  run_schedule (serial_schedule (length fs)) (e, map (@AtCas F) fs)
  = (snd (fst (run_calls (map (@CStart IOH_ptr error_code F) fs) e)),
     returned_threads fs
       (map snd
          (fst (fst (run_calls (map (@CStart IOH_ptr error_code F) fs) e))))).
Proof.
  unfold serial_schedule.
  pose proof (serial_schedule_aux fs [] e) as H.
  cbn [length app] in H. exact H.
Qed.

End EntityMore.

Lemma stop_at_most_once_witness :
  successful_stops
    (fst (fst (run_calls
                 [CStop unit unit nat; CShutdown nat tt tt 0%N;
                  CStop unit unit nat]
                 {| m_started := true; m_shutdown_change_cb := Some 7 |})))
  <= 1
  /\ snd (fst (run_calls
                 [CStop unit unit nat; CShutdown nat tt tt 0%N]
                 (init nat))) = init nat.
Proof.
  split.
  { apply (stop_at_most_once unit unit nat
             [CStop unit unit nat; CShutdown nat tt tt 0%N;
              CStop unit unit nat]
             {| m_started := true; m_shutdown_change_cb := Some 7 |}).
    reflexivity. }
  { apply (stop_at_most_once unit unit nat
             [CStop unit unit nat; CShutdown nat tt tt 0%N] (init nat));
      reflexivity. }
Defined.

(** Two [stop]s on a new entity: no [start] has succeeded, the shutdown
    call throws. A [start] handed an empty callable succeeds, and the
    shutdown call throws all the same. *)
Lemma stored_callback_is_last_winner_witness :
  nonempty_args [CStop unit unit nat; CStop unit unit nat] = true
  /\ ret (call_shutdown_change_cb tt tt 0%N
            (snd (fst (run_calls [CStop unit unit nat; CStop unit unit nat]
                         (init nat))))) = None
  /\ ret (call_shutdown_change_cb tt tt 0%N
            (snd (fst (run_calls [CStart unit unit (@None nat)]
                         (init nat))))) = None.
Proof.
  split; [reflexivity|].
  split.
  { destruct (stored_callback_is_last_winner unit unit nat
                [CStop unit unit nat; CStop unit unit nat] (init nat))
      as (_ & H).
    destruct (H tt tt 0%N) as (_ & _ & H3).
    apply (H3 eq_refl). reflexivity. }
  { destruct (stored_callback_is_last_winner unit unit nat
                [CStart unit unit (@None nat)] (init nat)) as (_ & H).
    destruct (H tt tt 0%N) as (H1 & _).
    apply H1. reflexivity. }
Defined.

(** The double start: [start(1)] wins, [start(2)] loses, and the
    shutdown call after [stop] invokes callable 1. *)
Lemma invoked_callbacks_won_a_start_witness :
  snd (run_calls
         [CStart unit unit (Some 1); CStart unit unit (Some 2);
          CStop unit unit nat;
          CShutdown nat tt tt 0%N] (init nat))
  = [mk_invocation 1 tt tt 0%N]
  /\ In (CStart unit unit (Some 1), true)
        (fst (fst (run_calls
                     [CStart unit unit (Some 1); CStart unit unit (Some 2);
                      CStop unit unit nat; CShutdown nat tt tt 0%N]
                     (init nat)))).
Proof.
  split; [reflexivity|].
  apply (invoked_callbacks_won_a_start unit unit nat
           [CStart unit unit (Some 1); CStart unit unit (Some 2);
          CStop unit unit nat;
            CShutdown nat tt tt 0%N]
         : _ /\ _) with (i := mk_invocation 1 tt tt 0%N).
  left. reflexivity.
Defined.

Lemma race_exactly_one_winner_witness :
  winners (snd (run_schedule [1; 0; 2; 1; 0; 2]
                  (init nat, map (@AtCas nat) [Some 10; Some 11; Some 12]))) = 1.
Proof.
  apply (race_exactly_one_winner nat (init nat) [Some 10; Some 11; Some 12]
           [1; 0; 2; 1; 0; 2]).
  - reflexivity.
  - discriminate.
  - intros i Hi. destruct i as [|[|[|i]]]; simpl in *; lia.
Defined.

End NetEntityBaseMore.

(** * Further properties of wait_queue *)

Module WaitQueueMore.

Import WaitQueue.

Unset Implicit Arguments.

Section QueueMore.

Variable T : Type.

Lemma call_conserves (c : call T) (q : wait_queue T) :
  popped_by c q ++ m_data_queue (run_call c q)
  = m_data_queue q ++ accepted_by c q.
Proof.
  destruct q as [d cl].
  destruct c as [| |v|v| |]; simpl.
  - rewrite app_nil_r. reflexivity.
  - rewrite app_nil_r. reflexivity.
  - unfold push. simpl. destruct cl; simpl;
      [rewrite app_nil_r|]; reflexivity.
  - unfold push_move. simpl. destruct cl; simpl;
      [rewrite app_nil_r|]; reflexivity.
  - unfold wait_and_pop, empty. simpl.
    destruct d as [|x d]; destruct cl; simpl;
      rewrite ?app_nil_r; reflexivity.
  - unfold try_pop. simpl.
    destruct d as [|x d]; simpl; rewrite ?app_nil_r; reflexivity.
Qed.

Lemma try_drain_aux (d : list T) (cl : bool) (k : nat) :
  try_drain (length d + k) {| m_data_queue := d; m_closed := cl |}
  = map Some d ++ repeat None k.
Proof.
  induction d as [|x d IH]; simpl.
  - induction k as [|k IHk]; simpl; [reflexivity|].
    rewrite IHk. reflexivity.
  - rewrite IH. reflexivity.
Qed.

Lemma wait_drain_closed_aux (d : list T) (k : nat) :
  wait_drain (length d + k) {| m_data_queue := d; m_closed := true |}
  = map Some d ++ repeat None k.
Proof.
  induction d as [|x d IH]; simpl.
  - induction k as [|k IHk]; simpl; [reflexivity|].
    rewrite IHk. reflexivity.
  - unfold wait_and_pop. simpl. rewrite IH. reflexivity.
Qed.

Lemma wait_drain_open_aux (d : list T) (k : nat) :
  wait_drain (length d + k) {| m_data_queue := d; m_closed := false |}
  = map Some d.
Proof.
  induction d as [|x d IH]; simpl.
  - destruct k; reflexivity.
  - unfold wait_and_pop. simpl. rewrite IH. reflexivity.
Qed.

Lemma push_all_aux (l : list T) (q : wait_queue T) :
  push_all l q
  = if m_closed q then q
    else {| m_data_queue := m_data_queue q ++ l; m_closed := false |}.
Proof.
  revert q. induction l as [|v l IH]; intros [d cl]; simpl.
  - destruct cl; [reflexivity | rewrite app_nil_r; reflexivity].
  - unfold push_all in *. simpl. rewrite IH. unfold push. simpl.
    destruct cl; simpl; [reflexivity|].
    rewrite <- app_assoc. reflexivity.
Qed.

Lemma apply_collect_aux (l acc : list T) :
  fold_left (fun a elem => a ++ [elem]) l acc = acc ++ l.
Proof.
  revert acc. induction l as [|x l IH]; intros acc; simpl.
  - rewrite app_nil_r. reflexivity.
  - rewrite IH, <- app_assoc. reflexivity.
Qed.

(** *** Main results *)

(** X7. Nothing is lost, duplicated or reordered: over any sequence of
    calls, the values handed out by [try_pop] and [wait_and_pop], in
    order, followed by what is left in the queue, are the initial
    contents followed by the values of the [push]es that returned
    true, in order. *)
Theorem queue_conservation (cs : list (call T)) (q : wait_queue T) :
  popped cs q ++ m_data_queue (run_calls cs q)
  = m_data_queue q ++ accepted cs q.
Proof.
  revert q. induction cs as [|c cs IH]; intros q; simpl.
  - rewrite app_nil_r. reflexivity.
  - change (fold_left (fun st c0 => run_call c0 st) cs (run_call c q))
      with (run_calls cs (run_call c q)).
    rewrite <- app_assoc, IH, !app_assoc, call_conserves. reflexivity.
Qed.

(** X8. [wait_and_pop] waits exactly when the queue is open and empty.
    Whenever it returns it does what [try_pop] does: same optional,
    same queue afterwards. [try_pop] never waits; it returns an empty
    optional exactly when the queue is empty, open or closed, and
    leaves the queue as it is then. *)
Theorem wait_and_pop_waits_or_try_pops (q : wait_queue T) :
  (wait_and_pop q = Blocks T
   <-> is_closed q = false /\ empty q = true)
  /\ (wait_and_pop q <> Blocks T ->
      wait_and_pop q = Returns (fst (try_pop q)) (snd (try_pop q)))
  /\ (fst (try_pop q) = None <-> empty q = true)
  /\ (empty q = true <-> size q = 0)
  /\ (empty q = true -> try_pop q = (None, q)).
Proof.
  destruct q as [d cl].
  unfold wait_and_pop, try_pop, is_closed, empty, size. simpl.
  destruct d as [|x d]; destruct cl; simpl;
    repeat split; intros; try tauto; try discriminate;
    try (destruct H; discriminate); try reflexivity.
Qed.

(** X9. Closing does not throw the contents away. On a queue that has
    just been closed, [wait_and_pop] never waits: call after call it
    hands out the remaining elements front to back, and from then on
    empty optionals. On an open queue the same calls hand out the
    elements and then wait. *)
Theorem close_then_drain (q : wait_queue T) (k : nat) :
  wait_drain (size q + k) (close q)
  = map Some (m_data_queue q) ++ repeat None k
  /\ wait_drain (size q + k) (open q) = map Some (m_data_queue q)
  /\ try_drain (size q + k) (close q)
     = map Some (m_data_queue q) ++ repeat None k.
Proof.
  destruct q as [d cl]. unfold size, close, open. simpl.
  split; [apply wait_drain_closed_aux|].
  split; [apply wait_drain_open_aux | apply try_drain_aux].
Qed.

(** X10. Values pushed one after the other on an open queue are all
    accepted and sit behind the earlier contents in push order, so that
    [try_pop] hands back first the earlier contents, then the pushed
    values in the order pushed, then empty optionals. On a closed queue
    the same pushes change nothing. *)
Theorem push_pop_round_trip (l : list T) (q : wait_queue T) (k : nat) :
  push_all l q
  = (if is_closed q then q
     else {| m_data_queue := m_data_queue q ++ l; m_closed := false |})
  /\ (is_closed q = false ->
      size (push_all l q) = size q + length l
      /\ try_drain (size q + length l + k) (push_all l q)
         = map Some (m_data_queue q) ++ map Some l ++ repeat None k).
Proof.
  split; [apply push_all_aux|].
  intros Ho. rewrite push_all_aux. unfold is_closed in Ho. rewrite Ho.
  unfold size. simpl. rewrite length_app. split; [reflexivity|].
  rewrite <- length_app, try_drain_aux, map_app, <- app_assoc.
  reflexivity.
Qed.

(** X11. Only [open] and [close] move the closed flag: after any
    sequence of calls [is_closed] is what the last [open] or [close]
    among them set, and what it was before when there is none;
    pushing and popping never open or close the queue. *)
Theorem closed_flag_follows_last_open_close (cs : list (call T))
    (q : wait_queue T) :
  is_closed (run_calls cs q) = last_flag cs (is_closed q).
Proof.
  unfold is_closed.
  revert q. induction cs as [|c cs IH]; intros q.
  - reflexivity.
  - unfold run_calls, last_flag in *. simpl. rewrite IH. f_equal.
    destruct q as [d cl].
    destruct c as [| |v|v| |]; simpl; try reflexivity.
    + unfold push. simpl. destruct cl; reflexivity.
    + unfold push_move. simpl. destruct cl; reflexivity.
    + unfold wait_and_pop, empty. simpl.
      destruct d; destruct cl; reflexivity.
    + unfold try_pop. simpl. destruct d; reflexivity.
Qed.

(** X12. [apply] calls the function object once on each element, front
    to back, and the queue is the same afterwards. Collecting the
    elements gives the contents in order, and pushing them into an
    open second queue appends a copy of the contents to it, while a
    closed second queue takes nothing. *)
Theorem apply_visits_front_to_back (q q2 : wait_queue T)
    (acc : list T) :
  WaitQueue.apply (fun elem a => a ++ [elem]) q acc
  = acc ++ m_data_queue q
  /\ WaitQueue.apply (fun elem dst => snd (push elem dst)) q q2
     = (if is_closed q2 then q2
        else {| m_data_queue := m_data_queue q2 ++ m_data_queue q;
                m_closed := false |})
  /\ length (WaitQueue.apply (fun elem a => a ++ [elem]) q []) = size q.
Proof.
  unfold WaitQueue.apply. split; [apply apply_collect_aux|].
  split.
  - apply (push_all_aux (m_data_queue q) q2).
  - rewrite apply_collect_aux. reflexivity.
Qed.

Lemma length_remove_one (t : nat) (l : list nat) :
  is_in t l = true -> S (length (remove_one t l)) = length l.
Proof.
  unfold is_in. induction l as [|x l IH]; simpl; [discriminate|].
  rewrite (Nat.eqb_sym t x). destruct (Nat.eqb x t); simpl.
  - reflexivity.
  - intros H. rewrite (IH H). reflexivity.
Qed.

Lemma test_predicate_keeps (t : nat) (s : shared T) :
  (asleep s <> [] ->
   m_closed (sq s) = false
   /\ length (m_data_queue (sq s)) <= S (length (woken s))) ->
  (asleep s = [] \/ length (m_data_queue (sq s)) <= length (woken s)
   \/ m_data_queue (sq s) <> []) ->
  no_lost_wakeup (test_predicate t s).
Proof.
  destruct s as [[d cl] sl wk dl]. unfold no_lost_wakeup, test_predicate,
    wait_and_pop, empty. simpl. intros Hinv Hcase.
  destruct d as [|x d]; destruct cl; simpl; intros Hne.
  - destruct (Hinv Hne) as [Hc _]. discriminate Hc.
  - split; [reflexivity | lia].
  - destruct (Hinv Hne) as [Hc _]. discriminate Hc.
  - destruct (Hinv Hne) as [_ Hl]. simpl in Hl. split; [reflexivity | lia].
Qed.

Lemma no_lost_wakeup_step (ev : event T) (s : shared T) :
  no_lost_wakeup s -> no_lost_wakeup (step ev s).
Proof.
  intros Hinv. destruct ev as [| |v k|v k| |t|t|t]; simpl.
  - (* open *)
    unfold no_lost_wakeup in *. simpl. intros Hne.
    destruct (Hinv Hne) as [_ Hl]. split; [reflexivity | exact Hl].
  - (* close, notify_all *)
    unfold no_lost_wakeup, notify_all. simpl. intros Hne.
    exfalso. apply Hne. reflexivity.
  - (* push, notify_one *)
    unfold push. destruct (m_closed (sq s)) eqn:Hc; simpl; [exact Hinv|].
    unfold no_lost_wakeup, notify_one in *. simpl.
    destruct (asleep s) as [|t0 sl] eqn:Hs; simpl.
    + intros Hne. exfalso. apply Hne. reflexivity.
    + intros _. destruct (Hinv ltac:(discriminate)) as [_ Hl].
      split; [reflexivity|]. rewrite !length_app. simpl. lia.
  - (* push by move, notify_one *)
    unfold push_move. destruct (m_closed (sq s)) eqn:Hc; simpl;
      [exact Hinv|].
    unfold no_lost_wakeup, notify_one in *. simpl.
    destruct (asleep s) as [|t0 sl] eqn:Hs; simpl.
    + intros Hne. exfalso. apply Hne. reflexivity.
    + intros _. destruct (Hinv ltac:(discriminate)) as [_ Hl].
      split; [reflexivity|]. rewrite !length_app. simpl. lia.
  - (* try_pop *)
    unfold no_lost_wakeup in *. simpl. intros Hne.
    destruct (Hinv Hne) as [Hc Hl]. unfold try_pop.
    destruct (m_data_queue (sq s)) as [|x d] eqn:Hd; simpl in *;
      (split; [exact Hc | rewrite ?Hd; simpl; lia]).
  - (* a reader enters wait_and_pop *)
    destruct (is_in t (asleep s) || is_in t (woken s)); [exact Hinv|].
    apply test_predicate_keeps.
    + intros Hne. destruct (Hinv Hne) as [Hc Hl]. split; [exact Hc | lia].
    + destruct (asleep s) as [|t0 sl] eqn:Hs; [left; reflexivity|].
      right. left. apply Hinv. rewrite Hs. discriminate.
  - (* an unblocked reader takes the mutex again *)
    destruct (is_in t (woken s)) eqn:Hin; [|exact Hinv].
    pose proof (length_remove_one t (woken s) Hin) as Hlen.
    apply test_predicate_keeps; simpl.
    + intros Hne. destruct (Hinv Hne) as [Hc Hl]. split; [exact Hc | lia].
    + destruct (asleep s) as [|t0 sl] eqn:Hs; [left; reflexivity|].
      destruct (m_data_queue (sq s)) as [|x d] eqn:Hd.
      * right. left. simpl. lia.
      * right. right. discriminate.
  - (* spurious wake-up *)
    destruct (is_in t (asleep s)) eqn:Hin; [|exact Hinv].
    unfold no_lost_wakeup in *. simpl. intros Hne.
    assert (Hs : asleep s <> []).
    { intros H0. rewrite H0 in Hin. discriminate Hin. }
    destruct (Hinv Hs) as [Hc Hl]. split; [exact Hc|].
    rewrite length_app. simpl. lia.
Qed.

Lemma no_lost_wakeup_run (evs : list (event T)) (s : shared T) :
  no_lost_wakeup s -> no_lost_wakeup (run_events evs s).
Proof.
  revert s. induction evs as [|ev evs IH]; intros s H; simpl.
  - exact H.
  - apply IH. apply no_lost_wakeup_step. exact H.
Qed.

(** X18. No reader sleeps through a wake-up. Take any queue, no reader
    inside [wait_and_pop] yet, and any sequence of [open], [close],
    [push] (each with its [notify_one]), [try_pop], readers entering
    [wait_and_pop], unblocked readers resuming, and spurious wake-ups.
    Afterwards, if some reader is still blocked without a notification,
    the queue is open and holds at most as many elements as there are
    unblocked readers that have not resumed yet. So on a closed queue
    no reader is left blocked, and once every unblocked reader has
    resumed, a reader is blocked only on an open and empty queue. *)
Theorem blocked_readers_miss_nothing (evs : list (event T))
    (q : wait_queue T) :
  (asleep (run_events evs (no_readers q)) <> [] ->
   is_closed (sq (run_events evs (no_readers q))) = false
   /\ size (sq (run_events evs (no_readers q)))
      <= length (woken (run_events evs (no_readers q))))
  /\ (is_closed (sq (run_events evs (no_readers q))) = true ->
      asleep (run_events evs (no_readers q)) = [])
  /\ (woken (run_events evs (no_readers q)) = [] ->
      asleep (run_events evs (no_readers q)) <> [] ->
      is_closed (sq (run_events evs (no_readers q))) = false
      /\ empty (sq (run_events evs (no_readers q))) = true).
Proof.
  assert (Hinv : no_lost_wakeup (run_events evs (no_readers q))).
  { apply no_lost_wakeup_run. intros Hne. exfalso. apply Hne. reflexivity. }
  unfold no_lost_wakeup, is_closed, size, empty in *.
  split; [exact Hinv|]. split.
  - intros Hc.
    destruct (asleep (run_events evs (no_readers q))) as [|t l] eqn:Hs;
      [reflexivity|].
    destruct (Hinv ltac:(discriminate)) as [Hc' _]. congruence.
  - intros Hw Hne. destruct (Hinv Hne) as [Hc Hl]. split; [exact Hc|].
    rewrite Hw in Hl. simpl in Hl.
    destruct (m_data_queue (sq (run_events evs (no_readers q))));
      [reflexivity | simpl in Hl; lia].
Qed.

End QueueMore.

(** Readers 1 and 2 block on a new queue; a [push] of 7 unblocks one of
    them, reader 1, which resumes and gets the 7; reader 2 is still
    blocked, on an open and empty queue. After [close] nobody is
    blocked. *)
Lemma blocked_readers_miss_nothing_witness :
  run_events [EEnter nat 1; EEnter nat 2; EPush 7 0; EResume nat 1]
    (no_readers (init nat))
  = {| sq := init nat; asleep := [2]; woken := [];
       delivered := [(1, Some 7)] |}
  /\ empty (sq (run_events
                  [EEnter nat 1; EEnter nat 2; EPush 7 0; EResume nat 1]
                  (no_readers (init nat)))) = true
  /\ asleep (run_events
               [EEnter nat 1; EEnter nat 2; EPush 7 0; EResume nat 1;
                EClose nat]
               (no_readers (init nat))) = [].
Proof.
  split; [reflexivity|].
  split.
  { destruct (blocked_readers_miss_nothing nat
                [EEnter nat 1; EEnter nat 2; EPush 7 0; EResume nat 1]
                (init nat)) as (_ & _ & H).
    apply H; [reflexivity | discriminate]. }
  { destruct (blocked_readers_miss_nothing nat
                [EEnter nat 1; EEnter nat 2; EPush 7 0; EResume nat 1;
                 EClose nat]
                (init nat)) as (_ & H & _).
    apply H. reflexivity. }
Defined.

Lemma wait_and_pop_waits_or_try_pops_witness :
  wait_and_pop (init nat) = Blocks nat
  /\ wait_and_pop (close (snd (push 5 (init nat))))
     = Returns (Some 5) {| m_data_queue := []; m_closed := true |}
  /\ try_pop (close (init nat)) = (None, close (init nat)).
Proof.
  split.
  { apply (wait_and_pop_waits_or_try_pops nat (init nat)).
    split; reflexivity. }
  split.
  { destruct (wait_and_pop_waits_or_try_pops nat
                (close (snd (push 5 (init nat))))) as (_ & H & _).
    apply H. discriminate. }
  { destruct (wait_and_pop_waits_or_try_pops nat (close (init nat)))
      as (_ & _ & _ & _ & H).
    apply H. reflexivity. }
Defined.

Lemma push_pop_round_trip_witness :
  is_closed (snd (push 1 (init nat))) = false
  /\ try_drain 4 (push_all [2; 3] (snd (push 1 (init nat))))
     = [Some 1; Some 2; Some 3; None].
Proof.
  split; [reflexivity|].
  destruct (push_pop_round_trip nat [2; 3] (snd (push 1 (init nat))) 1)
    as (_ & H).
  apply (H eq_refl).
Defined.

End WaitQueueMore.

(** * Properties of net_entity_mock *)

Module NetEntityMockFacts.

Import NetEntityMock.

Unset Implicit Arguments.

Section MockFacts.

Variables IOP errc F1 F2 : Type.
Variable mht : errc.








(** *** Main results *)




End MockFacts.




End NetEntityMockFacts.

(** * The io_base_test scenario for every buffer and count *)

Module IoBaseMore.

Import IoBase.

Unset Implicit Arguments.

Section ScenarioFacts.

Variable E : Type.

Lemma repeat_writes_record (buf : const_shared_buffer) (endp : option E)
    (n : nat) (q : list (queue_element E)) (b : nat) :
  repeat_call n (run_call (StartWriteSetup buf endp))
    {| m_io_started := true; m_write_in_progress := true;
       m_outq := {| m_output_queue := q; m_current_num_bytes := b |} |}
  = {| m_io_started := true; m_write_in_progress := true;
       m_outq := {| m_output_queue := q ++ repeat (buf, endp) n;
                    m_current_num_bytes := b + n * buf_size buf |} |}.
Proof.
  revert q b. induction n as [|n IH]; intros q b; cbn [repeat_call].
  - rewrite app_nil_r, Nat.add_0_r. reflexivity.
  - change (run_call (StartWriteSetup buf endp)
              {| m_io_started := true; m_write_in_progress := true;
                 m_outq := {| m_output_queue := q;
                              m_current_num_bytes := b |} |})
      with {| m_io_started := true; m_write_in_progress := true;
              m_outq := {| m_output_queue := q ++ [(buf, endp)];
                           m_current_num_bytes := b + buf_size buf |} |}.
    rewrite IH, <- app_assoc. cbn [repeat app].
    f_equal. f_equal. rewrite Nat.mul_succ_l. lia.
Qed.

Lemma repeat_completions_record (buf : const_shared_buffer)
    (endp : option E) (m k : nat) :
  repeat_call m (run_call (GetNextElement E))
    {| m_io_started := true; m_write_in_progress := true;
       m_outq := {| m_output_queue := repeat (buf, endp) (m + k);
                    m_current_num_bytes := (m + k) * buf_size buf |} |}
  = {| m_io_started := true; m_write_in_progress := true;
       m_outq := {| m_output_queue := repeat (buf, endp) k;
                    m_current_num_bytes := k * buf_size buf |} |}.
Proof.
  induction m as [|m IH]; cbn [repeat_call].
  - reflexivity.
  - rewrite <- IH. f_equal.
    cbn [Nat.add repeat run_call].
    unfold get_next_element, oq_get_next_element.
    cbn [m_outq m_output_queue m_current_num_bytes m_io_started
         m_write_in_progress fst snd].
    f_equal. f_equal. rewrite Nat.mul_succ_l. lia.
Qed.

Lemma scenario_state (buf : const_shared_buffer) (endp : option E)
    (n m k : nat) :
  n = m + k ->
  writes_then_completions buf endp (S n) m (snd (set_io_started (init E)))
  = {| m_io_started := true; m_write_in_progress := true;
       m_outq := {| m_output_queue := repeat (buf, endp) k;
                    m_current_num_bytes := k * buf_size buf |} |}.
Proof.
  intros ->. unfold writes_then_completions. cbn [repeat_call].
  change (run_call (StartWriteSetup buf endp)
            (snd (set_io_started (init E))))
    with {| m_io_started := true; m_write_in_progress := true;
            m_outq := {| m_output_queue := @nil (queue_element E);
                         m_current_num_bytes := 0 |} |}.
  rewrite repeat_writes_record. cbn [app Nat.add].
  apply repeat_completions_record.
Qed.

(** *** Main result *)

(** X17. The [io_base_test] scenario for every buffer, every endpoint
    and every [num_bufs > 1], not only for the 20 buffers of 5 bytes it
    is run with. On the [io_base] model each of its requirements on
    flags, counts and bytes holds (the flags and statistics of a new
    handler, the double [set_io_started], [start_write_setup] before and
    after [set_io_started], [num_bufs - 1] queued elements after
    [num_bufs] calls, after [num_bufs - 2] completions one element of
    [buf.size()] bytes, then an empty queue with the write in progress,
    then an empty optional and no write in progress). The element
    returned is the buffer with its endpoint, so its three requirements
    hold exactly when the endpoint compares equal to itself: they fail
    for an endpoint like a NaN, whatever [io_base] does. *)
Theorem io_base_test_passes (eqb : E -> E -> bool)
    (buf : const_shared_buffer) (endp : E)
    (num_bufs : nat) (Hnum : 1 < num_bufs) :
  (get_output_queue_stats (init E)
   = {| output_queue_size := 0; bytes_in_output_queue := 0 |}
   /\ is_io_started (init E) = false
   /\ is_write_in_progress (init E) = false)
  /\ (fst (set_io_started (init E)) = true
      /\ is_io_started (snd (set_io_started (init E))) = true
      /\ is_write_in_progress (snd (set_io_started (init E))) = false)
  /\ fst (set_io_started (snd (set_io_started (init E)))) = false
  /\ fst (start_write_setup buf None (init E)) = false
  /\ (fst (start_write_setup buf None (snd (set_io_started (init E))))
      = true
      /\ is_write_in_progress
           (snd (start_write_setup buf None (snd (set_io_started (init E)))))
         = true
      /\ output_queue_size
           (get_output_queue_stats
              (snd (start_write_setup buf None
                      (snd (set_io_started (init E)))))) = 0)
  /\ (fst (start_write_setup buf None
             (snd (start_write_setup buf None
                     (snd (set_io_started (init E)))))) = false
      /\ is_write_in_progress
           (snd (start_write_setup buf None
                   (snd (start_write_setup buf None
                           (snd (set_io_started (init E))))))) = true
      /\ output_queue_size
           (get_output_queue_stats
              (snd (start_write_setup buf None
                      (snd (start_write_setup buf None
                              (snd (set_io_started (init E)))))))) = 1)
  /\ (is_write_in_progress
        (writes_then_completions buf (Some endp) num_bufs 0
           (snd (set_io_started (init E)))) = true
      /\ output_queue_size
           (get_output_queue_stats
              (writes_then_completions buf (Some endp) num_bufs 0
                 (snd (set_io_started (init E))))) = num_bufs - 1)
  /\ (get_output_queue_stats
        (writes_then_completions buf (Some endp) num_bufs (num_bufs - 2)
           (snd (set_io_started (init E))))
      = {| output_queue_size := 1; bytes_in_output_queue := buf_size buf |}
      /\ element_requirements eqb
           (fst (get_next_element
                   (writes_then_completions buf (Some endp) num_bufs
                      (num_bufs - 2) (snd (set_io_started (init E))))))
           buf endp
         = eqb endp endp
      /\ snd (get_next_element
                (writes_then_completions buf (Some endp) num_bufs
                   (num_bufs - 2) (snd (set_io_started (init E)))))
         = {| m_io_started := true; m_write_in_progress := true;
              m_outq := oq_init E |}
      /\ get_next_element
           {| m_io_started := true; m_write_in_progress := true;
              m_outq := oq_init E |}
         = (None,
            {| m_io_started := true; m_write_in_progress := false;
               m_outq := oq_init E |})).
Proof.
  destruct num_bufs as [|[|n]]; try lia.
  split; [repeat split|]. split; [repeat split|].
  split; [reflexivity|]. split; [reflexivity|].
  split; [repeat split|]. split; [repeat split|].
  split.
  - rewrite (scenario_state buf (Some endp) (S n) 0 (S n) eq_refl).
    unfold is_write_in_progress, get_output_queue_stats, get_queue_stats.
    cbn [m_write_in_progress m_outq m_output_queue output_queue_size].
    split; [reflexivity|]. rewrite repeat_length. lia.
  - replace (S (S n) - 2) with n by lia.
    rewrite (scenario_state buf (Some endp) (S n) n 1 ltac:(lia)).
    unfold get_output_queue_stats, get_queue_stats, get_next_element,
      oq_get_next_element, oq_init.
    cbn [m_outq m_output_queue m_current_num_bytes repeat length fst snd
         m_io_started m_write_in_progress].
    split; [f_equal; lia|]. split; [|split; [|reflexivity]].
    + unfold element_requirements, endpoint_equal, buffer_equal.
      destruct (list_eq_dec byte_eq_dec buf buf) as [_|Hne];
        [reflexivity | exfalso; apply Hne; reflexivity].
    + do 3 f_equal. lia.
Qed.

End ScenarioFacts.

Lemma io_base_test_passes_witness :
  get_output_queue_stats
    (writes_then_completions test_buf (Some 42) 20 18
       (snd (set_io_started (init nat))))
  = {| output_queue_size := 1; bytes_in_output_queue := 5 |}
  /\ element_requirements Nat.eqb
       (fst (get_next_element
               (writes_then_completions test_buf (Some 42) 20 18
                  (snd (set_io_started (init nat))))))
       test_buf 42
     = true.
Proof.
  split.
  { apply (io_base_test_passes nat Nat.eqb test_buf 42 20). lia. }
  { destruct (io_base_test_passes nat Nat.eqb test_buf 42 20 ltac:(lia))
      as (_ & _ & _ & _ & _ & _ & _ & _ & H & _).
    exact H. }
Defined.

End IoBaseMore.
